(** * Argo Rollouts: event recorder adapter and rollout reconciliation

    Part I embeds [utils/record/record.go]: the [EventRecorderAdapter]
    (methods [Eventf], [Warnf], [eventf], [sendNotifications]) and the
    built-in trigger tables ([BuiltInTriggers], [reverseMap],
    [EventReasonToTrigger]).

    Part II holds the example manifests [rollout-ref-deployment] and
    [invalid-rollout] as data, and the reconciliation engine.  *)

From stdpp Require Import gmap strings list fin_maps.
From Stdlib Require Import ZArith Lia.

Local Open Scope string_scope.
Local Open Scope list_scope.
Local Open Scope Z_scope.

(* ===================================================================== *)
(** * Part I: utils/record/record.go                                      *)
(* ===================================================================== *)

(** corev1.EventTypeNormal and corev1.EventTypeWarning (k8s.io/api). *)
Definition EventTypeNormal : string := "Normal".
Definition EventTypeWarning : string := "Warning".

(** type EventOptions struct *)
Record EventOptions := mkEventOptions {
  EventType : string;
  EventReason : string
}.

(** Go assigns to one field of the by-value parameter [opts]. *)
Definition set_EventType (opts : EventOptions) (t : string) : EventOptions :=
  {| EventType := t; EventReason := EventReason opts |}.

(** logrus levels used by this file. *)
Inductive Level := InfoLevel | WarnLevel | ErrorLevel.

(** A logrus entry: its [Data] fields. *)
Record Entry := mkEntry { Data : gmap string string }.

(** [Entry.WithField]: a copy of the entry with one more field. *)
Definition WithField (logCtx : Entry) (key value : string) : Entry :=
  {| Data := <[key := value]> (Data logCtx) |}.

(** One emitted log line: level, context fields, format string, arguments. *)
Record LogLine := mkLogLine {
  lineLevel : Level;
  lineCtx : Entry;
  lineFmt : string;
  lineArgs : list string
}.

(** [reverseMap]: [for k, v := range m { n[v] = k }].  Go ranges over a
    map in an unspecified order; [reverseMap_in] runs the loop body over
    a given enumeration of the entries, [reverseMap] over the order of
    [map_to_list]. *)
Definition reverseMap_in (entries : list (string * string)) : gmap string string :=
  foldl (fun n kv => <[kv.2 := kv.1]> n) ∅ entries.

Definition reverseMap (m : gmap string string) : gmap string string :=
  reverseMap_in (map_to_list m).

(** The event reasons of [utils/conditions] that [BuiltInTriggers] refers
    to.  That package is not among the sources embedded here, so the four
    constants are taken as parameters. *)
Class Conditions := mkConditions {
  RolloutCompletedReason : string;
  RolloutStepCompletedReason : string;
  ScalingReplicaSetReason : string;
  RolloutUpdatedReason : string
}.

(** The two functions of [utils/log] that [eventf] calls, over the type of
    [runtime.Object]; package [utils/log] is not among the sources embedded
    here, so both are parameters. *)
Class LogUtil (Object : Type) := mkLogUtil {
  WithObject : Object → Entry;
  KindNamespaceName : Entry → string * string * string
}.

(** Result of a Go call returning [(value, error)]; errors are kept by
    their message. *)
Inductive result (A : Type) := Ok (a : A) | Err (msg : string).
Arguments Ok {A} a.
Arguments Err {A} msg.

(** notifications-engine: [services.Destination], [triggers.Condition]
    (only its [Send] field is read), and the API handed out by the
    factory: the [Triggers] of its config and its [Send] method, which
    answers [None] for a delivery and [Some msg] for a failure. *)
Record Destination := mkDestination { Service : string; Recipient : string }.

Record Condition := mkCondition { Send : list string }.

Record API (ObjMap : Type) := mkAPI {
  Triggers : gmap string (list Condition);
  apiSend : ObjMap → list string → Destination → option string
}.
Arguments Triggers {ObjMap} _.
Arguments apiSend {ObjMap} _ _ _ _.

(** What [sendNotifications] takes from outside this file: the type
    assertion [object.(metav1.Object)] with [GetAnnotations] ([None] when
    the assertion fails), [subscriptions.Annotations.GetDestinations],
    and [json.Marshal] followed by [json.Unmarshal]. *)
Class Notifications (Object : Type) := mkNotifications {
  ObjMap : Type;
  Bytes : Type;
  GetAnnotations : Object → option (gmap string string);
  GetDestinations : gmap string string → gmap string (list Destination);
  jsonMarshal : Object → result Bytes;
  jsonUnmarshal : Bytes → result ObjMap
}.

(** One call of [record.EventRecorder.Eventf] of client-go. *)
Record K8sEvent (Object : Type) := mkK8sEvent {
  evObject : Object;
  evType : string;
  evReason : string;
  evMessageFmt : string;
  evArgs : list string
}.
Arguments mkK8sEvent {Object} _ _ _ _ _.
Arguments evObject {Object} _.
Arguments evType {Object} _.
Arguments evReason {Object} _.
Arguments evMessageFmt {Object} _.
Arguments evArgs {Object} _.

(** type EventRecorderAdapter struct.  [Recorder] is the sequence of
    events handed to the Kubernetes recorder (latest last),
    [RolloutEventCounter] the counter vector by label values,
    [apiFactory] the notifications API factory: [None] is the nil factory
    of [NewFakeEventRecorder], otherwise the answer of [GetAPI]. *)
Record EventRecorderAdapter (Object : Type) `{Notifications Object} := mkAdapter {
  Recorder : list (K8sEvent Object);
  RolloutEventCounter : gmap (list string) nat;
  apiFactory : option (result (API ObjMap))
}.
Arguments mkAdapter {Object _} _ _ _.
Arguments Recorder {Object _} _.
Arguments RolloutEventCounter {Object _} _.
Arguments apiFactory {Object _} _.

(** A Go call either returns or panics. *)
Inductive Outcome (A : Type) := Returned (a : A) | Panicked.
Arguments Returned {A} a.
Arguments Panicked {A}.

Section RecordGo.
Context {Object : Type} `{!LogUtil Object} `{!Notifications Object} `{!Conditions}.

(** [e.Recorder.Eventf(object, eventtype, reason, messageFmt, args...)] *)
Definition Recorder_Eventf (e : EventRecorderAdapter Object) (object : Object)
    (eventtype reason messageFmt : string) (args : list string) : EventRecorderAdapter Object :=
  {| Recorder := Recorder e ++ [mkK8sEvent object eventtype reason messageFmt args];
     RolloutEventCounter := RolloutEventCounter e;
     apiFactory := apiFactory e |}.

(** [e.RolloutEventCounter.WithLabelValues(lvs...).Inc()] on the
    four-label vector that [NewFakeEventRecorder] creates. *)
Definition Counter_Inc (e : EventRecorderAdapter Object) (lvs : list string) : EventRecorderAdapter Object :=
  {| Recorder := Recorder e;
     RolloutEventCounter :=
       <[lvs := S (default 0%nat (RolloutEventCounter e !! lvs))]> (RolloutEventCounter e);
     apiFactory := apiFactory e |}.

(** [logCtx.Infof], [logCtx.Warnf] and package-level [log.Errorf]. *)
Definition Infof (logCtx : Entry) (fmt : string) (args : list string) (out : list LogLine) :=
  out ++ [mkLogLine InfoLevel logCtx fmt args].
Definition Warnf_entry (logCtx : Entry) (fmt : string) (args : list string) (out : list LogLine) :=
  out ++ [mkLogLine WarnLevel logCtx fmt args].
Definition Errorf (fmt : string) (args : list string) (out : list LogLine) :=
  out ++ [mkLogLine ErrorLevel (mkEntry ∅) fmt args].

(** func (e *EventRecorderAdapter) eventf(object, warn, opts, messageFmt, args...) *)
Definition eventf (e : EventRecorderAdapter Object) (object : Object) (warn : bool)
    (opts : EventOptions) (messageFmt : string) (args : list string)
    (out : list LogLine) : EventRecorderAdapter Object * list LogLine :=
  let logCtx := WithObject object in
  let '(logCtx, e) :=
    if decide (EventReason opts ≠ "") then
      let logCtx := WithField logCtx "event_reason" (EventReason opts) in
      let e := Recorder_Eventf e object (EventType opts) (EventReason opts) messageFmt args in
      let '(kind, namespace, name) := KindNamespaceName logCtx in
      let e := if decide (kind = "Rollout")
               then Counter_Inc e [namespace; name; EventType opts; EventReason opts]
               else e in
      (logCtx, e)
    else (logCtx, e) in
  let logFn := if warn then Warnf_entry logCtx else Infof logCtx in
  (e, logFn messageFmt args out).

(** func (e *EventRecorderAdapter) Eventf(object, opts, messageFmt, args...) *)
Definition Eventf (e : EventRecorderAdapter Object) (object : Object)
    (opts : EventOptions) (messageFmt : string) (args : list string)
    (out : list LogLine) : EventRecorderAdapter Object * list LogLine :=
  let opts := if decide (EventType opts = "") then set_EventType opts EventTypeNormal else opts in
  eventf e object (bool_decide (EventType opts = EventTypeWarning)) opts messageFmt args out.

(** func (e *EventRecorderAdapter) Warnf(object, opts, messageFmt, args...) *)
Definition Warnf (e : EventRecorderAdapter Object) (object : Object)
    (opts : EventOptions) (messageFmt : string) (args : list string)
    (out : list LogLine) : EventRecorderAdapter Object * list LogLine :=
  let opts := set_EventType opts EventTypeWarning in
  eventf e object true opts messageFmt args out.

(** func (e *EventRecorderAdapter) K8sRecorder() *)
Definition K8sRecorder (e : EventRecorderAdapter Object) : list (K8sEvent Object) := Recorder e.

(** var BuiltInTriggers = map[string]string{...} *)
Definition BuiltInTriggers : gmap string string :=
  list_to_map [ ("on-completed", RolloutCompletedReason);
                ("on-step-completed", RolloutStepCompletedReason);
                ("on-scaling-replicaset", ScalingReplicaSetReason);
                ("on-update", RolloutUpdatedReason) ].

(** var EventReasonToTrigger = reverseMap(BuiltInTriggers) *)
Definition EventReasonToTrigger : gmap string string := reverseMap BuiltInTriggers.

(** The loop [for name, triggers := range notificationsAPI.GetConfig().Triggers]
    of [sendNotifications]: [templates[name] = triggers[0].Send] for the
    built-in names.  The keys are distinct, so the order of the range
    does not show; [triggers[0]] panics on an empty slice. *)
Definition templatesPanic (trs : gmap string (list Condition)) : bool :=
  existsb (fun kv : string * list Condition =>
             bool_decide (is_Some (BuiltInTriggers !! kv.1)) &&
             match kv.2 with [] => true | _ => false end)
          (map_to_list trs).

Definition builtinTemplates (trs : gmap string (list Condition)) : gmap string (list string) :=
  omap (fun triggers : list Condition => Send <$> head triggers)
       (filter (fun kv : string * list Condition => is_Some (BuiltInTriggers !! kv.1)) trs).

(** The loop [for _, dest := range destinations] of [sendNotifications]:
    the first failing [Send] is logged and returned. *)
Fixpoint sendEach (notificationsAPI : API ObjMap) (objMap : ObjMap) (template : list string)
    (destinations : list Destination) (out : list LogLine) : option string * list LogLine :=
  match destinations with
  | [] => (None, out)
  | dest :: rest =>
      match apiSend notificationsAPI objMap template dest with
      | Some err => (Some err, Errorf "notification error: %s" [err] out)
      | None => sendEach notificationsAPI objMap template rest out
      end
  end.

(** func (e *EventRecorderAdapter) sendNotifications(object, opts) error *)
Definition sendNotifications (e : EventRecorderAdapter Object) (object : Object)
    (opts : EventOptions) (out : list LogLine) : Outcome (option string) * list LogLine :=
  match GetAnnotations object with
  | None => (Panicked, out)
  | Some annotations =>
      let destByTrigger := GetDestinations annotations in
      match EventReasonToTrigger !! EventReason opts with
      | None => (Returned None, out)
      | Some trigger =>
          let destinations := default [] (destByTrigger !! trigger) in
          if decide (length destinations = 0%nat) then (Returned None, out)
          else
            match apiFactory e with
            | None => (Panicked, out)
            | Some (Err err) => (Returned (Some err), out)
            | Some (Ok notificationsAPI) =>
                if templatesPanic (Triggers notificationsAPI) then (Panicked, out)
                else
                  let templates := builtinTemplates (Triggers notificationsAPI) in
                  match jsonMarshal object with
                  | Err err => (Returned (Some err), out)
                  | Ok objBytes =>
                      match jsonUnmarshal objBytes with
                      | Err err => (Returned (Some err), out)
                      | Ok objMap =>
                          let '(r, out) :=
                            sendEach notificationsAPI objMap
                              (default [] (templates !! trigger)) destinations out in
                          (Returned r, out)
                      end
                  end
            end
      end
  end.


(** The context [eventf] logs under: the object's entry, with the
    event reason when there is one. *)
Definition eventLogCtx (object : Object) (opts : EventOptions) : Entry :=
  if decide (EventReason opts ≠ "")
  then WithField (WithObject object) "event_reason" (EventReason opts)
  else WithObject object.

(** The kind [eventf] reads back from its log context. *)
Definition eventKind (object : Object) (opts : EventOptions) : string :=
  (KindNamespaceName (WithField (WithObject object) "event_reason" (EventReason opts))).1.1.
End RecordGo.

(* ===================================================================== *)
(** * Part II: rollout data model, example manifests, reconciliation      *)
(* ===================================================================== *)

(** The controller itself (the rollout resource types, ReplicaSetManager,
    TrafficWeightController, AnalysisGate, StrategyEngine and Reconciler)
    is not among the sources embedded here; of the repository there are
    the two manifests below.  The definitions of this part that stand
    for the controller are modelled from the specification, each marked
    as such. *)

(** ** Data model *)

(** Modelled from the spec: the step variants of a canary strategy; the
    type declarations of the rollout resource are not among the sources.
    [Pause None] is the indefinite pause; durations are in seconds. *)
Inductive Step :=
| SetWeight (percentage : Z)
| Pause (duration : option Z)
| AnalysisStep (templateName : string) (args : list string)
| Experiment (reference : string).

(** Modelled from the spec: the settings the blue-green machine names, which
    the resource declarations (not among the sources) would carry: the
    auto-promote signal, the optional analysis gate and the grace window
    of the previous active replica set. *)
Record BlueGreenConfig := mkBlueGreen {
  autoPromote : bool;
  gate : option (string * list string);
  graceWindow : Z
}.

(** Modelled from the spec: [spec.strategy.{canary|blueGreen}]; any other key
    under [strategy] is an unknown strategy kind. *)
Inductive Strategy :=
| Canary (steps : list Step)
| BlueGreen (cfg : BlueGreenConfig)
| UnknownStrategy (key : string).

(** Modelled from the spec: the declarative part of a Rollout.  The pod
    template is kept by its hash. *)
Record RolloutSpec := mkSpec {
  replicas : Z;
  templateHash : string;
  workloadRef : option string;
  strategy : Strategy
}.

(** Modelled from the spec: [status.phase]. *)
Inductive Phase := Progressing | Paused | Degraded | Healthy.

(** Modelled from the spec: PauseCondition, reason and start timestamp. *)
Record PauseCondition := mkPause { reason : string; startTime : Z }.

(** Modelled from the spec: the phases of an AnalysisRun. *)
Inductive AnalysisPhase :=
| APending | ARunning | ASuccessful | AFailed | AError | AInconclusive.

(** Modelled from the spec: ReplicaSetRef, a replica set by revision hash
    with its current replica count. *)
Record ReplicaSetRef := mkRef { revision : string; count : Z }.

(** Modelled from the spec: the observed status of a Rollout (the Go
    status type is not among the sources).  [currentStepIndex = None] is
    the cleared index. *)
Record RolloutStatus := mkStatus {
  currentStepIndex : option nat;
  currentStepWeight : Z;
  stableRS : string;
  currentPodHash : string;
  replicaSets : list ReplicaSetRef;
  pauseConditions : list PauseCondition;
  analysisRun : option nat;
  abort : bool;
  phase : Phase;
  message : string
}.

(** Modelled from the spec: status is created empty on first observation. *)
Definition emptyStatus : RolloutStatus :=
  {| currentStepIndex := None; currentStepWeight := 0; stableRS := "";
     currentPodHash := ""; replicaSets := []; pauseConditions := [];
     analysisRun := None; abort := false; phase := Progressing; message := "" |}.

(** ** The manifests of the examples *)

(** The key found under [spec.strategy] of a manifest, with the steps
    listed below it. *)
Definition strategyOfKey (key : string) (steps : list Step) : Strategy :=
  if decide (key = "canary") then Canary steps
  else if decide (key = "blueGreen") then BlueGreen (mkBlueGreen false None 0)
  else UnknownStrategy key.

(** Rollout [rollout-ref-deployment]: replicas 5, a workloadRef to the
    Deployment of the same name (whose template runs the image below),
    strategy canary with steps setWeight 20 and pause 10s. *)
Definition rollout_ref_deployment : RolloutSpec :=
  {| replicas := 5;
     templateHash := "docker.intuit.com/docker-rmt/argoproj/rollouts-demo:blue";
     workloadRef := Some "rollout-ref-deployment";
     strategy := strategyOfKey "canary" [SetWeight 20; Pause (Some 10)] |}.

(** Rollout [invalid-rollout]: replicas 10, the key [unknown-strategy]
    under strategy, with one step setWeight 10. *)
Definition invalid_rollout : RolloutSpec :=
  {| replicas := 10;
     templateHash := "valid-rollout:0.0.0";
     workloadRef := None;
     strategy := strategyOfKey "unknown-strategy" [SetWeight 10] |}.

(** ** Cluster state *)

(** Modelled from the spec: the answers of the traffic-routing capability
    to [SetWeight(percentage)]. *)
Inductive RouteResult := RouteSuccess | RoutePending | RouteError.

(** Modelled from the spec: the cluster as the Reconciler sees it.  The
    managed resources are the replica sets (requested and current replica
    count by revision hash), the weight last successfully applied to the
    routing capability, and the analysis runs started and terminated.
    The rest is what the collaborators report: the clock, the answer of
    the routing capability to a weight, the phase of each analysis run,
    and the external resume/promote signal. *)
Record ClusterState := mkCluster {
  now : Z;
  rsTarget : gmap string Z;
  rsCurrent : gmap string Z;
  routeAnswer : Z → RouteResult;
  routeApplied : Z;
  analysisStarted : list (string * list string);
  analysisTerminated : gset nat;
  analysisPhase : nat → AnalysisPhase;
  resumeSignal : bool
}.

(** Modelled from the spec: the error taxonomy. *)
Inductive ErrorKind :=
| ValidationError (why : string)
| TransientInfraError
| GateFailure (why : string)
| ConflictError.

(** Modelled from the spec: what a reconcile call reports to the work
    queue. *)
Inductive ReconcileOutcome :=
| Done
| Requeue (after : option Z)
| Rejected (err : ErrorKind).

Record Reconciled := mkReconciled {
  status : RolloutStatus;
  cluster : ClusterState;
  outcome : ReconcileOutcome
}.

(** ** Field updates of status and cluster state *)

Definition set_weight (st : RolloutStatus) (w : Z) : RolloutStatus :=
  {| currentStepIndex := currentStepIndex st; currentStepWeight := w;
     stableRS := stableRS st; currentPodHash := currentPodHash st;
     replicaSets := replicaSets st; pauseConditions := pauseConditions st;
     analysisRun := analysisRun st; abort := abort st; phase := phase st;
     message := message st |}.

Definition set_replicaSets (st : RolloutStatus) (refs : list ReplicaSetRef) : RolloutStatus :=
  {| currentStepIndex := currentStepIndex st; currentStepWeight := currentStepWeight st;
     stableRS := stableRS st; currentPodHash := currentPodHash st;
     replicaSets := refs; pauseConditions := pauseConditions st;
     analysisRun := analysisRun st; abort := abort st; phase := phase st;
     message := message st |}.

Definition set_phase (st : RolloutStatus) (p : Phase) : RolloutStatus :=
  {| currentStepIndex := currentStepIndex st; currentStepWeight := currentStepWeight st;
     stableRS := stableRS st; currentPodHash := currentPodHash st;
     replicaSets := replicaSets st; pauseConditions := pauseConditions st;
     analysisRun := analysisRun st; abort := abort st; phase := p;
     message := message st |}.

Definition set_pause (st : RolloutStatus) (pcs : list PauseCondition) (p : Phase) : RolloutStatus :=
  {| currentStepIndex := currentStepIndex st; currentStepWeight := currentStepWeight st;
     stableRS := stableRS st; currentPodHash := currentPodHash st;
     replicaSets := replicaSets st; pauseConditions := pcs;
     analysisRun := analysisRun st; abort := abort st; phase := p;
     message := message st |}.

Definition set_analysisRun (st : RolloutStatus) (run : option nat) (p : Phase) : RolloutStatus :=
  {| currentStepIndex := currentStepIndex st; currentStepWeight := currentStepWeight st;
     stableRS := stableRS st; currentPodHash := currentPodHash st;
     replicaSets := replicaSets st; pauseConditions := pauseConditions st;
     analysisRun := run; abort := abort st; phase := p;
     message := message st |}.

Definition set_rsTarget (cl : ClusterState) (m : gmap string Z) : ClusterState :=
  {| now := now cl; rsTarget := m; rsCurrent := rsCurrent cl;
     routeAnswer := routeAnswer cl; routeApplied := routeApplied cl;
     analysisStarted := analysisStarted cl; analysisTerminated := analysisTerminated cl;
     analysisPhase := analysisPhase cl; resumeSignal := resumeSignal cl |}.

Definition set_routeApplied (cl : ClusterState) (w : Z) : ClusterState :=
  {| now := now cl; rsTarget := rsTarget cl; rsCurrent := rsCurrent cl;
     routeAnswer := routeAnswer cl; routeApplied := w;
     analysisStarted := analysisStarted cl; analysisTerminated := analysisTerminated cl;
     analysisPhase := analysisPhase cl; resumeSignal := resumeSignal cl |}.

(** ** ReplicaSetManager *)

(** Modelled from the spec: the contract
    [reconcileReplicaCounts(stable, canary, desiredWeight, totalReplicas)
     → (stableCount, canaryCount)] of the ReplicaSetManager, whose code is
    not among the sources.  The ceiling of [totalReplicas * desiredWeight / 100]
    is computed with the flooring division of [Z]. *)
Definition reconcileReplicaCounts (stable canary : ReplicaSetRef)
    (desiredWeight totalReplicas : Z) : Z * Z :=
  let canaryCount := (totalReplicas * desiredWeight + 99) / 100 in
  let stableCount := totalReplicas - canaryCount in
  (stableCount, canaryCount).

(** Modelled from the spec: a scale request of the ReplicaSetManager; issuing
    the target a replica set already has changes nothing. *)
Definition scaleTo (hash : string) (n : Z) (cl : ClusterState) : ClusterState :=
  set_rsTarget cl (<[hash := n]> (rsTarget cl)).

(** Modelled from the spec: the current replica count of a replica set, as
    the cluster reports it (0 when it does not exist yet). *)
Definition currentCount (cl : ClusterState) (hash : string) : Z :=
  default 0 (rsCurrent cl !! hash).

Definition stableRef (st : RolloutStatus) (cl : ClusterState) : ReplicaSetRef :=
  mkRef (stableRS st) (currentCount cl (stableRS st)).

Definition canaryRef (st : RolloutStatus) (cl : ClusterState) : ReplicaSetRef :=
  mkRef (currentPodHash st) (currentCount cl (currentPodHash st)).

(** Modelled from the spec: the ReplicaSetManager at work for one call.  It
    derives the two counts from the weight, issues the scale requests and
    refreshes the replica-set references of status. *)
Definition manageReplicas (spec : RolloutSpec) (weight : Z)
    (st : RolloutStatus) (cl : ClusterState) : RolloutStatus * ClusterState :=
  let '(stableCount, canaryCount) :=
    reconcileReplicaCounts (stableRef st cl) (canaryRef st cl) weight (replicas spec) in
  let cl := scaleTo (stableRS st) stableCount cl in
  let cl := scaleTo (currentPodHash st) canaryCount cl in
  (set_replicaSets st [stableRef st cl; canaryRef st cl], cl).

(** Modelled from the spec: "ReplicaSetManager confirms replica counts match
    the weight". *)
Definition replicasMatch (spec : RolloutSpec) (weight : Z)
    (st : RolloutStatus) (cl : ClusterState) : bool :=
  let '(stableCount, canaryCount) :=
    reconcileReplicaCounts (stableRef st cl) (canaryRef st cl) weight (replicas spec) in
  bool_decide (currentCount cl (stableRS st) = stableCount) &&
  bool_decide (currentCount cl (currentPodHash st) = canaryCount).





(** ** TrafficWeightController *)

(** Modelled from the spec: the capability [SetWeight(percentage)] of the
    routing backend.  A successful call makes [w] the applied weight. *)
Definition routeSetWeight (cl : ClusterState) (w : Z) : ClusterState * RouteResult :=
  match routeAnswer cl w with
  | RouteSuccess => (set_routeApplied cl w, RouteSuccess)
  | RoutePending => (cl, RoutePending)
  | RouteError => (cl, RouteError)
  end.

(** Modelled from the spec: the contract
    [converge(currentWeight, desiredWeight, routingCapability) → applied bool]
    of the TrafficWeightController, whose code is not among the sources:
    it delegates to the capability and answers false when the call fails
    or reports propagation pending. *)
Definition converge (currentWeight desiredWeight : Z) (cl : ClusterState) : ClusterState * bool :=
  match routeSetWeight cl desiredWeight with
  | (cl, RouteSuccess) => (cl, true)
  | (cl, _) => (cl, false)
  end.

(** Modelled from the spec: weights are clamped to [0,100]. *)
Definition clamp (w : Z) : Z := Z.max 0 (Z.min 100 w).

(** Modelled from the spec: the recorded weight follows the apply; when
    [converge] answers false status keeps its weight. *)
Definition applyWeight (desired : Z) (st : RolloutStatus) (cl : ClusterState)
    : RolloutStatus * ClusterState * bool :=
  let '(cl, applied) := converge (currentStepWeight st) desired cl in
  (if applied then set_weight st desired else st, cl, applied).

(** ** AnalysisGate *)

(** Modelled from the spec: [start(templateRef, args) → runHandle]; the handle
    is the position of the run among the runs started. *)
Definition startAnalysis (template : string) (args : list string) (cl : ClusterState)
    : nat * ClusterState :=
  (length (analysisStarted cl),
   {| now := now cl; rsTarget := rsTarget cl; rsCurrent := rsCurrent cl;
      routeAnswer := routeAnswer cl; routeApplied := routeApplied cl;
      analysisStarted := analysisStarted cl ++ [(template, args)];
      analysisTerminated := analysisTerminated cl;
      analysisPhase := analysisPhase cl; resumeSignal := resumeSignal cl |}).

(** Modelled from the spec: [Terminate(handle)] of the analysis backend. *)
Definition terminateAnalysis (run : option nat) (cl : ClusterState) : ClusterState :=
  match run with
  | None => cl
  | Some h =>
      {| now := now cl; rsTarget := rsTarget cl; rsCurrent := rsCurrent cl;
         routeAnswer := routeAnswer cl; routeApplied := routeApplied cl;
         analysisStarted := analysisStarted cl;
         analysisTerminated := {[h]} ∪ analysisTerminated cl;
         analysisPhase := analysisPhase cl; resumeSignal := resumeSignal cl |}
  end.

(** Modelled from the spec: [poll(runHandle) → phase]. *)
Definition poll (cl : ClusterState) (h : nat) : AnalysisPhase := analysisPhase cl h.

(** Modelled from the spec: the gate of an AnalysisStep as the engine meets
    it on one call.  With no run referenced one is started; otherwise the
    run is polled: Successful passes, Failed and Error fail the gate, any
    other phase keeps waiting. *)
Inductive GateVerdict :=
| GateStarted (h : nat) (cl : ClusterState)
| GatePassed
| GateFailed (why : string)
| GateWaiting.

Definition pollGate (template : string) (args : list string)
    (st : RolloutStatus) (cl : ClusterState) : GateVerdict :=
  match analysisRun st with
  | None => let '(h, cl) := startAnalysis template args cl in GateStarted h cl
  | Some h =>
      match poll cl h with
      | ASuccessful => GatePassed
      | AFailed => GateFailed ("analysis " +:+ template +:+ " Failed")
      | AError => GateFailed ("analysis " +:+ template +:+ " Error")
      | APending | ARunning | AInconclusive => GateWaiting
      end
  end.

(** ** StrategyEngine: canary *)

(** Modelled from the spec: advancing [currentStepIndex] past step [i]; the
    pause condition and the analysis reference of the step are dropped. *)
Definition advance (i : nat) (st : RolloutStatus) : RolloutStatus :=
  {| currentStepIndex := Some (S i); currentStepWeight := currentStepWeight st;
     stableRS := stableRS st; currentPodHash := currentPodHash st;
     replicaSets := replicaSets st; pauseConditions := [];
     analysisRun := None; abort := abort st; phase := Progressing;
     message := message st |}.

(** Modelled from the spec: rule 4 of the canary machine, the abort.  Weight
    goes back to 0 through the TrafficWeightController, the canary is
    scaled to zero, the stable replica set is not touched, status is
    marked Degraded and records the reason. *)
Definition abortBranch (why : string) (st : RolloutStatus) (cl : ClusterState) : Reconciled :=
  let '(st, cl, applied) := applyWeight 0 st cl in
  let cl := if decide (currentPodHash st = stableRS st) then cl
            else scaleTo (currentPodHash st) 0 cl in
  let st :=
    {| currentStepIndex := currentStepIndex st; currentStepWeight := currentStepWeight st;
       stableRS := stableRS st; currentPodHash := currentPodHash st;
       replicaSets := [stableRef st cl; canaryRef st cl];
       pauseConditions := pauseConditions st; analysisRun := analysisRun st;
       abort := true; phase := Degraded; message := why |} in
  mkReconciled st cl (if applied then Done else Requeue None).

(** Modelled from the spec: the reason an abort records.  A failed gate
    names its analysis; an explicit abort keeps the reason status already
    carries, if any. *)
Definition abortReason (st : RolloutStatus) : string :=
  if decide (message st = "") then "RolloutAborted" else message st.

(** Modelled from the spec: rule 1 of the canary machine and its tie-break, a
    new pod template hash starts the step sequence at 0 with a new
    canary; an analysis run of the superseded revision is terminated.
    Blue-green has no steps and leaves the index alone. *)
Definition initRollout (spec : RolloutSpec) (st : RolloutStatus) (cl : ClusterState) : Reconciled :=
  let cl := terminateAnalysis (analysisRun st) cl in
  let st :=
    {| currentStepIndex :=
         match strategy spec with Canary _ => Some 0%nat | _ => currentStepIndex st end;
       currentStepWeight := currentStepWeight st;
       stableRS := stableRS st; currentPodHash := templateHash spec;
       replicaSets := replicaSets st; pauseConditions := [];
       analysisRun := None; abort := false; phase := Progressing;
       message := "" |} in
  mkReconciled st cl (Requeue None).

(** Modelled from the spec: a timed pause is over once its duration has
    elapsed since the recorded start, an indefinite one once the resume
    signal is observed. *)
Definition pauseOver (d : option Z) (pc : PauseCondition) (cl : ClusterState) : bool :=
  match d with
  | Some s => bool_decide (s ≤ now cl - startTime pc)
  | None => resumeSignal cl
  end.

(** Modelled from the spec: rule 2 of the canary machine, the evaluation of
    the step at [currentStepIndex]; with rule 5, the counts are derived
    again from the weight on every call.  The spec gives no rule for an
    Experiment step: the call leaves the index where it is. *)
Definition evalStep (spec : RolloutSpec) (i : nat) (step : Step)
    (st : RolloutStatus) (cl : ClusterState) : Reconciled :=
  match step with
  | SetWeight w =>
      let w := clamp w in
      let '(st, cl, applied) := applyWeight w st cl in
      let matched := replicasMatch spec w st cl in
      let '(st, cl) := manageReplicas spec w st cl in
      if applied && matched
      then mkReconciled (advance i st) cl (Requeue None)
      else mkReconciled (set_phase st Progressing) cl (Requeue None)
  | Pause d =>
      let '(st, cl) := manageReplicas spec (currentStepWeight st) st cl in
      match pauseConditions st with
      | [] =>
          mkReconciled (set_pause st [mkPause "CanaryPauseStep" (now cl)] Paused) cl (Requeue d)
      | pc :: _ =>
          if pauseOver d pc cl
          then mkReconciled (advance i st) cl (Requeue None)
          else mkReconciled (set_phase st Paused) cl (Requeue d)
      end
  | AnalysisStep template args =>
      let '(st, cl) := manageReplicas spec (currentStepWeight st) st cl in
      match pollGate template args st cl with
      | GateStarted h cl => mkReconciled (set_analysisRun st (Some h) Progressing) cl (Requeue None)
      | GatePassed => mkReconciled (advance i st) cl (Requeue None)
      | GateFailed why => abortBranch why st cl
      | GateWaiting => mkReconciled (set_phase st Progressing) cl (Requeue None)
      end
  | Experiment _ =>
      let '(st, cl) := manageReplicas spec (currentStepWeight st) st cl in
      mkReconciled (set_phase st Progressing) cl (Requeue None)
  end.

(** Modelled from the spec: rule 3 of the canary machine, the end of the step
    list.  Weight goes to 100; once applied, the counts at weight 100
    scale the old stable replica set to zero and the canary to the full
    count, the canary becomes stable, the step index is cleared and the
    rollout is Healthy.  Until the weight is applied the rollout is still
    progressing, with the counts derived from the current weight. *)
Definition promote (spec : RolloutSpec) (st : RolloutStatus) (cl : ClusterState) : Reconciled :=
  let '(st, cl, applied) := applyWeight 100 st cl in
  if applied then
    let '(st, cl) := manageReplicas spec 100 st cl in
    mkReconciled
      {| currentStepIndex := None; currentStepWeight := currentStepWeight st;
         stableRS := currentPodHash st; currentPodHash := currentPodHash st;
         replicaSets := [canaryRef st cl]; pauseConditions := [];
         analysisRun := None; abort := abort st; phase := Healthy;
         message := message st |}
      cl Done
  else
    let '(st, cl) := manageReplicas spec (currentStepWeight st) st cl in
    mkReconciled (set_phase st Progressing) cl (Requeue None).

(** Modelled from the spec: detection of a new pod template hash, the spec
    names another revision than the one status is rolling out. *)
Definition newTemplate (spec : RolloutSpec) (st : RolloutStatus) : bool :=
  bool_decide (templateHash spec ≠ currentPodHash st).

(** Modelled from the spec: the canary state machine, one transition per
    reconcile call.  The abort branch is entered from a rollout in
    progress (one with a step index); then come the new-template rule,
    the step at the index, and the end of the list. *)
Definition canaryEngine (spec : RolloutSpec) (steps : list Step)
    (st : RolloutStatus) (cl : ClusterState) : Reconciled :=
  match currentStepIndex st with
  | Some i =>
      if abort st then abortBranch (abortReason st) st cl
      else if newTemplate spec st then initRollout spec st cl
      else match steps !! i with
           | Some step => evalStep spec i step st cl
           | None => promote spec st cl
           end
  | None =>
      if newTemplate spec st then initRollout spec st cl
      else mkReconciled st cl Done
  end.

(** ** StrategyEngine: blue-green *)

(** Modelled from the spec: the blue-green machine with a preview in place
    (PreviewActive).  The preview replica set is brought to the full
    count, the optional analysis gate is passed, the promote signal
    (explicit or automatic) is awaited under a pause condition, and the
    promotion is the one weight transition to 100, after which the
    preview is the active revision.  The previous active replica set is
    left scaled up; the call asks to be woken after the grace window. *)
Definition evalPreview (spec : RolloutSpec) (cfg : BlueGreenConfig)
    (st : RolloutStatus) (cl : ClusterState) : Reconciled :=
  let cl := scaleTo (currentPodHash st) (replicas spec) cl in
  let st := set_replicaSets st [stableRef st cl; canaryRef st cl] in
  if negb (bool_decide (currentCount cl (currentPodHash st) = replicas spec))
  then mkReconciled (set_phase st Progressing) cl (Requeue None)
  else
    let verdict :=
      match gate cfg with
      | Some (template, args) => pollGate template args st cl
      | None => GatePassed
      end in
    match verdict with
    | GateStarted h cl => mkReconciled (set_analysisRun st (Some h) Progressing) cl (Requeue None)
    | GateFailed why => abortBranch why st cl
    | GateWaiting => mkReconciled (set_phase st Progressing) cl (Requeue None)
    | GatePassed =>
        if autoPromote cfg || resumeSignal cl then
          let '(st, cl, applied) := applyWeight 100 st cl in
          if applied then
            mkReconciled
              {| currentStepIndex := currentStepIndex st;
                 currentStepWeight := currentStepWeight st;
                 stableRS := currentPodHash st; currentPodHash := currentPodHash st;
                 replicaSets := [canaryRef st cl]; pauseConditions := [];
                 analysisRun := None; abort := abort st; phase := Healthy;
                 message := message st |}
              cl (Requeue (Some (graceWindow cfg)))
          else mkReconciled (set_phase st Progressing) cl (Requeue None)
        else
          match pauseConditions st with
          | [] => mkReconciled (set_pause st [mkPause "BlueGreenPause" (now cl)] Paused) cl (Requeue None)
          | _ :: _ => mkReconciled (set_phase st Paused) cl (Requeue None)
          end
    end.

(** Modelled from the spec: the blue-green state machine, one transition per
    reconcile call.  With no preview in place (both roles name one
    revision) a new template hash starts one; with a preview in place the
    abort branch, the new-template rule and the preview evaluation follow
    in that order. *)
Definition bluegreenEngine (spec : RolloutSpec) (cfg : BlueGreenConfig)
    (st : RolloutStatus) (cl : ClusterState) : Reconciled :=
  if decide (currentPodHash st = stableRS st) then
    if newTemplate spec st then initRollout spec st cl
    else mkReconciled st cl Done
  else
    if abort st then abortBranch (abortReason st) st cl
    else if newTemplate spec st then initRollout spec st cl
    else evalPreview spec cfg st cl.

(** ** StrategyEngine and Reconciler *)

(** Modelled from the spec: given spec and status, the StrategyEngine decides
    the next status transition.  A spec of unknown kind has no machine. *)
Definition StrategyEngine (spec : RolloutSpec) (st : RolloutStatus) (cl : ClusterState) : Reconciled :=
  match strategy spec with
  | Canary steps => canaryEngine spec steps st cl
  | BlueGreen cfg => bluegreenEngine spec cfg st cl
  | UnknownStrategy _ => mkReconciled st cl Done
  end.

(** Modelled from the spec: a declared weight lies within [0,100]; a pause
    duration is not negative. *)
Definition stepValid (s : Step) : bool :=
  match s with
  | SetWeight w => (0 <=? w) && (w <=? 100)
  | Pause (Some d) => 0 <=? d
  | _ => true
  end.

(** Modelled from the spec: the validation that precedes reconciliation
    (unknown strategy kind, [spec.replicas] below 0, a declared weight
    outside [0,100]); [None] when the spec is well formed. *)
Definition validate (spec : RolloutSpec) : option string :=
  match strategy spec with
  | UnknownStrategy key => Some ("unknown strategy kind: " +:+ key)
  | Canary steps =>
      if replicas spec <? 0 then Some "spec.replicas is negative"
      else if forallb stepValid steps then None
      else Some "step out of range"
  | BlueGreen cfg =>
      if replicas spec <? 0 then Some "spec.replicas is negative" else None
  end.

(** Modelled from the spec: the Reconciler around a strategy engine.  A
    malformed spec is rejected with a ValidationError and does not reach
    the engine; otherwise the status the engine returns is the one
    persisted. *)
Definition Reconciler (engine : RolloutSpec → RolloutStatus → ClusterState → Reconciled)
    (spec : RolloutSpec) (st : RolloutStatus) (cl : ClusterState) : Reconciled :=
  match validate spec with
  | Some why => mkReconciled st cl (Rejected (ValidationError why))
  | None => engine spec st cl
  end.

Definition reconcile : RolloutSpec → RolloutStatus → ClusterState → Reconciled :=
  Reconciler StrategyEngine.

(** The weight a reconcile call asks the TrafficWeightController to
    converge to, if any: 0 on the abort branch (entered by the flag or by
    a failed gate), the clamped weight of a SetWeight step, 100 at the end
    of the step list and at a blue-green promotion. *)
Definition gateFails (template : string) (args : list string)
    (st : RolloutStatus) (cl : ClusterState) : bool :=
  match pollGate template args st cl with GateFailed _ => true | _ => false end.

Definition gatePasses (cfg : BlueGreenConfig) (st : RolloutStatus) (cl : ClusterState) : bool :=
  match gate cfg with
  | Some (template, args) =>
      match pollGate template args st cl with GatePassed => true | _ => false end
  | None => true
  end.

Definition requestedWeight (spec : RolloutSpec) (st : RolloutStatus) (cl : ClusterState) : option Z :=
  match validate spec with
  | Some _ => None
  | None =>
      match strategy spec with
      | Canary steps =>
          match currentStepIndex st with
          | None => None
          | Some i =>
              if abort st then Some 0
              else if newTemplate spec st then None
              else match steps !! i with
                   | Some (SetWeight w) => Some (clamp w)
                   | Some (AnalysisStep template args) =>
                       if gateFails template args st cl then Some 0 else None
                   | Some _ => None
                   | None => Some 100
                   end
          end
      | BlueGreen cfg =>
          if decide (currentPodHash st = stableRS st) then None
          else if abort st then Some 0
          else if newTemplate spec st then None
          else if negb (bool_decide (currentCount cl (currentPodHash st) = replicas spec)) then None
          else match gate cfg with
               | Some (template, args) =>
                   if gateFails template args st cl then Some 0
                   else if gatePasses cfg st cl && (autoPromote cfg || resumeSignal cl)
                        then Some 100 else None
               | None => if autoPromote cfg || resumeSignal cl then Some 100 else None
               end
      | UnknownStrategy _ => None
      end
  end.

(** ** Runs of the controller *)

(** The triples (spec, status, cluster-state) a rollout passes through:
    status starts empty with no weight applied; between reconcile calls
    anything outside the controller may change (the spec, the flags and
    conditions of status written by the command-line tooling, whatever
    the cluster reports), except the recorded weight and the weight
    applied to the routing capability, which only the controller writes;
    a reconcile call replaces status and cluster by its results. *)
Inductive reachable : RolloutSpec → RolloutStatus → ClusterState → Prop :=
| reach_first spec cl :
    routeApplied cl = 0 →
    reachable spec emptyStatus cl
| reach_external spec st cl spec' st' cl' :
    reachable spec st cl →
    currentStepWeight st' = currentStepWeight st →
    routeApplied cl' = routeApplied cl →
    reachable spec' st' cl'
| reach_reconcile spec st cl :
    reachable spec st cl →
    reachable spec (status (reconcile spec st cl)) (cluster (reconcile spec st cl)).






(** ** Sample instances, used to run the definitions on concrete inputs *)

(** Objects named by kind, namespace and name; [WithObject] files the name
    under the lower-cased kind, [KindNamespaceName] reads it back for the
    kind Rollout. *)
Definition sampleObject : Type := string * string * string.

Definition sampleLogUtil : LogUtil sampleObject :=
  {| WithObject := fun o : sampleObject =>
       let '(kind, namespace, name) := o in
       mkEntry (<[ (if decide (kind = "Rollout") then "rollout" else "other") := name ]>
                  (<[ "namespace" := namespace ]> ∅));
     KindNamespaceName := fun logCtx =>
       match Data logCtx !! "rollout" with
       | Some name => ("Rollout", default "" (Data logCtx !! "namespace"), name)
       | None => ("", default "" (Data logCtx !! "namespace"), "")
       end |}.

Definition sampleConditions : Conditions :=
  {| RolloutCompletedReason := "RolloutCompleted";
     RolloutStepCompletedReason := "RolloutStepCompleted";
     ScalingReplicaSetReason := "ScalingReplicaSet";
     RolloutUpdatedReason := "RolloutUpdated" |}.

(** Every object carries one subscription, of the destination
    slack:my-channel to the trigger on-completed. *)
Definition sampleNotifications : Notifications sampleObject :=
  {| ObjMap := sampleObject;
     Bytes := sampleObject;
     GetAnnotations := fun _ => Some ∅;
     GetDestinations := fun _ => {[ "on-completed" := [mkDestination "slack" "my-channel"] ]};
     jsonMarshal := fun o => Ok o;
     jsonUnmarshal := fun b => Ok b |}.

(** An API whose every send fails. *)
Definition failingAPI : API sampleObject :=
  {| Triggers := ∅; apiSend := fun _ _ _ => Some "connection refused" |}.

Definition sampleRollout : sampleObject := ("Rollout", "default", "rollout-ref-deployment").

Definition sampleAdapter : @EventRecorderAdapter sampleObject sampleNotifications :=
  @mkAdapter sampleObject sampleNotifications [] ∅ (Some (Ok failingAPI)).

(** ** The scenario of [rollout-ref-deployment] *)

(** The revision that is stable while the template of the manifest is
    rolled out. *)
Definition previousHash : string := "docker.intuit.com/docker-rmt/argoproj/rollouts-demo:green".

(** A cluster in which the stable replica set runs 4 replicas and the
    canary 1, the routing capability accepts every weight, [applied] is
    the weight in force, and no analysis run has finished. *)
Definition scenarioCluster (applied : Z) : ClusterState :=
  {| now := 0;
     rsTarget := ∅;
     rsCurrent := {[ previousHash := 4;
                     templateHash rollout_ref_deployment := 1 ]};
     routeAnswer := fun _ => RouteSuccess;
     routeApplied := applied;
     analysisStarted := [];
     analysisTerminated := ∅;
     analysisPhase := fun _ => APending;
     resumeSignal := false |}.



(* ===================================================================== *)
(** * More of utils/record/record.go: constructors and call sequences     *)
(* ===================================================================== *)

(** The label names of the counter vector that [NewFakeEventRecorder]
    creates: [[]string{"name", "namespace", "type", "reason"}]. *)
Definition fakeCounterLabels : list string := ["name"; "namespace"; "type"; "reason"].

(** A counter vector pairs the values of [WithLabelValues] with its label
    names by position. *)
Definition labelled (names values : list string) : gmap string string :=
  list_to_map (zip names values).

Section RecordGoCalls.
Context {Object : Type} `{!LogUtil Object} `{!Notifications Object} `{!Conditions}.

(** func NewEventRecorder(kubeclientset, rolloutEventCounter, apiFactory).
    The recorder comes from a new broadcaster: nothing has been handed to
    it yet.  The clientset is the sink the broadcaster records to and
    does not show in the adapter. *)
Definition NewEventRecorder (rolloutEventCounter : gmap (list string) nat)
    (factory : option (result (API ObjMap))) : EventRecorderAdapter Object :=
  {| Recorder := []; RolloutEventCounter := rolloutEventCounter; apiFactory := factory |}.

(** func NewFakeEventRecorder(): a new counter vector and the nil factory. *)
Definition NewFakeEventRecorder : EventRecorderAdapter Object :=
  NewEventRecorder ∅ None.

(** func (e *EventRecorderAdapter) GetAPIFactory() *)
Definition GetAPIFactory (e : EventRecorderAdapter Object) : option (result (API ObjMap)) :=
  apiFactory e.

(** A call of one of the two exported recording methods. *)
Inductive Call :=
| CallEventf (object : Object) (opts : EventOptions) (messageFmt : string) (args : list string)
| CallWarnf (object : Object) (opts : EventOptions) (messageFmt : string) (args : list string).

Definition call (s : EventRecorderAdapter Object * list LogLine) (c : Call)
    : EventRecorderAdapter Object * list LogLine :=
  match c with
  | CallEventf object opts messageFmt args => Eventf s.1 object opts messageFmt args s.2
  | CallWarnf object opts messageFmt args => Warnf s.1 object opts messageFmt args s.2
  end.

(** A sequence of calls on one adapter, in order. *)
Definition calls (s : EventRecorderAdapter Object * list LogLine) (cs : list Call)
    : EventRecorderAdapter Object * list LogLine :=
  foldl call s cs.

(** The event type a call ends up with. *)
Definition callType (c : Call) : string :=
  match c with
  | CallEventf _ opts _ _ =>
      if decide (EventType opts = "") then EventTypeNormal else EventType opts
  | CallWarnf _ _ _ _ => EventTypeWarning
  end.

Definition callObject (c : Call) : Object :=
  match c with CallEventf object _ _ _ | CallWarnf object _ _ _ => object end.

Definition callReason (c : Call) : string :=
  match c with CallEventf _ opts _ _ | CallWarnf _ opts _ _ => EventReason opts end.

(** The event a call hands to the Kubernetes recorder, if any. *)
Definition handedEvent (c : Call) : option (K8sEvent Object) :=
  match c with
  | CallEventf object _ messageFmt args | CallWarnf object _ messageFmt args =>
      if decide (callReason c = "") then None
      else Some (mkK8sEvent object (callType c) (callReason c) messageFmt args)
  end.

(** The label values under which a call counts, if it counts. *)
Definition countedLabels (c : Call) : option (list string) :=
  let '(kind, namespace, name) :=
    KindNamespaceName (WithField (WithObject (callObject c)) "event_reason" (callReason c)) in
  if decide (callReason c ≠ "" ∧ kind = "Rollout")
  then Some [namespace; name; callType c; callReason c]
  else None.

(** Whether the object is subscribed, through its annotations, to the
    built-in trigger of the event reason with at least one destination. *)
Definition subscribedDestinations (object : Object) (opts : EventOptions) : list Destination :=
  match GetAnnotations object, EventReasonToTrigger !! EventReason opts with
  | Some annotations, Some trigger => default [] (GetDestinations annotations !! trigger)
  | _, _ => []
  end.
End RecordGoCalls.

(** ** More sample instances *)

(** An API whose every send is delivered, with one condition configured
    for on-completed. *)
Definition servingAPI : API sampleObject :=
  {| Triggers := {[ "on-completed" := [mkCondition ["rollout-completed"]] ]};
     apiSend := fun _ _ _ => None |}.

(** An API whose configuration lists on-update with no condition. *)
Definition emptyTriggerAPI : API sampleObject :=
  {| Triggers := {[ "on-update" := [] ]};
     apiSend := fun _ _ _ => None |}.

Definition adapterWith (factory : option (result (API sampleObject)))
    : @EventRecorderAdapter sampleObject sampleNotifications :=
  @mkAdapter sampleObject sampleNotifications [] ∅ factory.

(* ===================================================================== *)
(** * Properties of utils/record/record.go                                *)
(* ===================================================================== *)

(** ** [reverseMap] *)

Section ReverseMap.
Implicit Types (entries : list (string * string)) (n m : gmap string string).

Local Abbreviation loop := (foldl (fun n (kv : string * string) => <[kv.2 := kv.1]> n)).

Lemma reverse_loop_other entries n v :
  v ∉ entries.*2 → loop n entries !! v = n !! v.
Proof.
  revert n. induction entries as [|[k0 v0] entries IH]; intros n Hv; [done|].
  rewrite fmap_cons, not_elem_of_cons in Hv. destruct Hv as [Hne Hv].
  cbn [foldl]. rewrite IH by done. cbn. by rewrite lookup_insert_ne.
Qed.

Lemma reverse_loop_hit entries n k v :
  NoDup entries.*2 → (k, v) ∈ entries → loop n entries !! v = Some k.
Proof.
  revert n. induction entries as [|[k0 v0] entries IH]; intros n Hnd Hin.
  - by apply elem_of_nil in Hin.
  - rewrite fmap_cons in Hnd. apply NoDup_cons in Hnd as [Hfresh Hnd].
    cbn [foldl]. apply elem_of_cons in Hin as [Heq|Hin].
    + injection Heq as -> ->. rewrite reverse_loop_other by done.
      cbn. by rewrite lookup_insert_eq.
    + by apply IH.
Qed.

Lemma reverse_loop_origin entries n k v :
  loop n entries !! v = Some k → (k, v) ∈ entries ∨ n !! v = Some k.
Proof.
  revert n. induction entries as [|[k0 v0] entries IH]; intros n Hl; [by right|].
  cbn [foldl] in Hl. apply IH in Hl as [Hin|Hl].
  - left. by apply elem_of_cons; right.
  - cbn in Hl. destruct (decide (v0 = v)) as [->|Hne].
    + rewrite lookup_insert_eq in Hl. injection Hl as ->. left. apply elem_of_cons; by left.
    + rewrite lookup_insert_ne in Hl by done. by right.
Qed.

(** On an injective map the loop yields the inverse, in whatever order
    the range visits the entries. *)
Lemma reverseMap_in_inverse m entries :
  (∀ k1 k2 v, m !! k1 = Some v → m !! k2 = Some v → k1 = k2) →
  entries ≡ₚ map_to_list m →
  ∀ k v, reverseMap_in entries !! v = Some k ↔ m !! k = Some v.
Proof.
  intros Hinj Hperm k v. unfold reverseMap_in.
  assert (Hnd : NoDup entries.*2).
  { rewrite Hperm. apply NoDup_fmap_2_strong; [|apply NoDup_map_to_list].
    intros [k1 v1] [k2 v2] H1 H2 Heq. cbn in Heq. subst v2.
    apply elem_of_map_to_list in H1, H2. f_equal. eauto. }
  split.
  - intros Hl. apply reverse_loop_origin in Hl as [Hin|Hl].
    + rewrite Hperm in Hin. by apply elem_of_map_to_list.
    + by rewrite lookup_empty in Hl.
  - intros Hm. apply reverse_loop_hit; [done|].
    rewrite Hperm. by apply elem_of_map_to_list.
Qed.

Lemma reverseMap_inverse m :
  (∀ k1 k2 v, m !! k1 = Some v → m !! k2 = Some v → k1 = k2) →
  ∀ k v, reverseMap m !! v = Some k ↔ m !! k = Some v.
Proof. intros Hinj. by apply reverseMap_in_inverse. Qed.

Lemma reverseMap_order_irrelevant m entries :
  (∀ k1 k2 v, m !! k1 = Some v → m !! k2 = Some v → k1 = k2) →
  entries ≡ₚ map_to_list m →
  reverseMap_in entries = reverseMap m.
Proof.
  intros Hinj Hperm. apply map_eq. intros v.
  destruct (reverseMap_in entries !! v) as [k|] eqn:E1;
    destruct (reverseMap m !! v) as [k'|] eqn:E2; try done.
  - apply (reverseMap_in_inverse m entries Hinj Hperm) in E1.
    apply (reverseMap_inverse m Hinj) in E2. f_equal. eauto.
  - apply (reverseMap_in_inverse m entries Hinj Hperm) in E1.
    apply (reverseMap_inverse m Hinj) in E1. congruence.
  - apply (reverseMap_inverse m Hinj) in E2.
    apply (reverseMap_in_inverse m entries Hinj Hperm) in E2. congruence.
Qed.
End ReverseMap.

Section BuiltInTriggersProofs.
Context `{!Conditions}.

Lemma BuiltInTriggers_lookup t r :
  BuiltInTriggers !! t = Some r ↔
    (t, r) ∈ [ ("on-completed", RolloutCompletedReason);
               ("on-step-completed", RolloutStepCompletedReason);
               ("on-scaling-replicaset", ScalingReplicaSetReason);
               ("on-update", RolloutUpdatedReason) ].
Proof.
  unfold BuiltInTriggers. split.
  - apply elem_of_list_to_map_2.
  - apply elem_of_list_to_map_1. cbn.
    refine (bool_decide_unpack _ _). vm_compute. exact I.
Qed.

Lemma BuiltInTriggers_injective :
  NoDup [RolloutCompletedReason; RolloutStepCompletedReason;
         ScalingReplicaSetReason; RolloutUpdatedReason] →
  ∀ k1 k2 v, BuiltInTriggers !! k1 = Some v → BuiltInTriggers !! k2 = Some v → k1 = k2.
Proof.
  intros Hnd k1 k2 v H1 H2.
  apply BuiltInTriggers_lookup in H1, H2.
  apply NoDup_cons in Hnd as [Ha Hnd]. apply NoDup_cons in Hnd as [Hb Hnd].
  apply NoDup_cons in Hnd as [Hc _].
  rewrite !elem_of_cons, elem_of_nil in Ha. rewrite !elem_of_cons, elem_of_nil in Hb.
  rewrite !elem_of_cons, elem_of_nil in Hc.
  rewrite !elem_of_cons, elem_of_nil in H1. rewrite !elem_of_cons, elem_of_nil in H2.
  destruct H1 as [H1|[H1|[H1|[H1|[]]]]]; apply pair_equal_spec in H1 as [-> ->];
    destruct H2 as [H2|[H2|[H2|[H2|[]]]]]; apply pair_equal_spec in H2 as [-> E];
    try reflexivity; exfalso; rewrite ?E in *; tauto.
Qed.

(** C10: [EventReasonToTrigger] is the inverse of [BuiltInTriggers].
    With the four event reasons pairwise distinct (the built-in map
    injective), looking up the reason of a trigger name gives that
    name back, and every key of [EventReasonToTrigger] is the value
    [BuiltInTriggers] holds for the trigger name stored under it. *)
Theorem EventReasonToTrigger_inverts_BuiltInTriggers :
  NoDup [RolloutCompletedReason; RolloutStepCompletedReason;
         ScalingReplicaSetReason; RolloutUpdatedReason] →
  (∀ t r, BuiltInTriggers !! t = Some r → EventReasonToTrigger !! r = Some t) ∧
  (∀ r t, EventReasonToTrigger !! r = Some t → BuiltInTriggers !! t = Some r) ∧
  dom EventReasonToTrigger =
    {[ RolloutCompletedReason; RolloutStepCompletedReason;
       ScalingReplicaSetReason; RolloutUpdatedReason ]}.
Proof.
  intros Hnd. pose proof (BuiltInTriggers_injective Hnd) as Hinj.
  pose proof (reverseMap_inverse BuiltInTriggers Hinj) as Hinv.
  split; [|split].
  - intros t r Ht. by apply Hinv.
  - intros r t Hr. by apply Hinv.
  - apply set_eq. intros r. rewrite elem_of_dom. unfold is_Some.
    rewrite !elem_of_union, !elem_of_singleton. split.
    + intros [t Ht]. apply Hinv, BuiltInTriggers_lookup in Ht.
      rewrite !elem_of_cons, elem_of_nil in Ht.
      destruct Ht as [Ht|[Ht|[Ht|[Ht|[]]]]]; apply pair_equal_spec in Ht as [-> ->]; tauto.
    + intros Hr.
      assert (∃ t, BuiltInTriggers !! t = Some r) as [t Ht].
      { setoid_rewrite BuiltInTriggers_lookup.
        setoid_rewrite elem_of_cons. setoid_rewrite elem_of_cons.
        setoid_rewrite elem_of_cons. setoid_rewrite elem_of_cons.
        destruct Hr as [[[->| ->]| ->]| ->]; eexists; eauto 6. }
      exists t. by apply Hinv.
Qed.
End BuiltInTriggersProofs.

Lemma EventReasonToTrigger_inverts_BuiltInTriggers_witness :
  @EventReasonToTrigger sampleConditions !! "RolloutUpdated" = Some "on-update" ∧
  @EventReasonToTrigger sampleConditions !! "ScalingReplicaSet" = Some "on-scaling-replicaset".
Proof.
  assert (Hnd : NoDup ["RolloutCompleted"; "RolloutStepCompleted";
                       "ScalingReplicaSet"; "RolloutUpdated"]).
  { refine (bool_decide_unpack _ _). vm_compute. exact I. }
  destruct (@EventReasonToTrigger_inverts_BuiltInTriggers sampleConditions Hnd)
    as (Hfwd & _ & _).
  split; apply Hfwd; vm_compute; reflexivity.
Defined.

(** ** [Eventf], [Warnf], [eventf], [sendNotifications] *)

Section EventfProofs.
Context {Object : Type} `{!LogUtil Object} `{!Notifications Object} `{!Conditions}.
Implicit Types (e : EventRecorderAdapter Object) (object : Object)
  (opts : EventOptions) (out : list LogLine).

Lemma eventf_Recorder e object warn opts fmt args out :
  Recorder (eventf e object warn opts fmt args out).1 =
    Recorder e ++
      (if decide (EventReason opts = "") then []
       else [mkK8sEvent object (EventType opts) (EventReason opts) fmt args]).
Proof.
  unfold eventf. destruct (decide (EventReason opts ≠ "")) as [Hne|Heq].
  - destruct (KindNamespaceName _) as [[kind namespace] name].
    destruct (decide (EventReason opts = "")); [done|].
    by destruct (decide (kind = "Rollout")).
  - destruct (decide (EventReason opts = "")); [|done]. cbn. by rewrite app_nil_r.
Qed.

Lemma eventf_log e object warn opts fmt args out :
  (eventf e object warn opts fmt args out).2 =
    out ++ [mkLogLine (if warn then WarnLevel else InfoLevel)
              (eventLogCtx object opts) fmt args].
Proof.
  unfold eventf, eventLogCtx. destruct (decide (EventReason opts ≠ "")).
  - destruct (KindNamespaceName _) as [[kind namespace] name]. by destruct warn.
  - by destruct warn.
Qed.

Lemma eventf_counter e object warn opts fmt args out :
  RolloutEventCounter (eventf e object warn opts fmt args out).1 =
    if decide (EventReason opts ≠ "" ∧ eventKind object opts = "Rollout") then
      let '(_, namespace, name) :=
        KindNamespaceName (WithField (WithObject object) "event_reason" (EventReason opts)) in
      let lvs := [namespace; name; EventType opts; EventReason opts] in
      <[lvs := S (default 0%nat (RolloutEventCounter e !! lvs))]> (RolloutEventCounter e)
    else RolloutEventCounter e.
Proof.
  unfold eventf, eventKind. destruct (decide (EventReason opts ≠ "")) as [Hne|Heq].
  - destruct (KindNamespaceName _) as [[kind namespace] name]. cbn.
    destruct (decide (kind = "Rollout")).
    + by rewrite decide_True.
    + rewrite decide_False; [done|]. intros [_ ?]. done.
  - rewrite decide_False; [done|]. intros [? _]. done.
Qed.

Lemma eventf_apiFactory e object warn opts fmt args out :
  apiFactory (eventf e object warn opts fmt args out).1 = apiFactory e.
Proof.
  unfold eventf. destruct (decide (EventReason opts ≠ "")); [|done].
  destruct (KindNamespaceName _) as [[kind namespace] name].
  by destruct (decide (kind = "Rollout")).
Qed.



(** C8: a call of [Eventf] with an empty [opts.EventType] is the call of
    [eventf] with type Normal and [warn] false: what it hands to the
    recorder has type Normal and its line is logged at Info level.  A
    call of [Warnf] hands type Warning to the recorder and logs at Warn
    level, whatever [EventType] its options carry. *)
Theorem Eventf_defaults_to_Normal_and_Warnf_forces_Warning
    e object opts wopts fmt args out :
  EventType opts = "" →
  let r := Eventf e object opts fmt args out in
  let rw := Warnf e object wopts fmt args out in
  r = eventf e object false (mkEventOptions EventTypeNormal (EventReason opts)) fmt args out ∧
  Recorder r.1 =
    Recorder e ++
      (if decide (EventReason opts = "") then []
       else [mkK8sEvent object EventTypeNormal (EventReason opts) fmt args]) ∧
  r.2 = out ++ [mkLogLine InfoLevel (eventLogCtx object opts) fmt args] ∧
  Recorder rw.1 =
    Recorder e ++
      (if decide (EventReason wopts = "") then []
       else [mkK8sEvent object EventTypeWarning (EventReason wopts) fmt args]) ∧
  rw.2 = out ++ [mkLogLine WarnLevel (eventLogCtx object wopts) fmt args] ∧
  (∀ t, Warnf e object (set_EventType wopts t) fmt args out = rw).
Proof.
  intros Hempty r rw.
  assert (Hr : r = eventf e object false
                 (mkEventOptions EventTypeNormal (EventReason opts)) fmt args out).
  { subst r. unfold Eventf. rewrite decide_True by done. cbn. reflexivity. }
  split; [exact Hr|]. split; [|split; [|split; [|split]]].
  - rewrite Hr, eventf_Recorder. reflexivity.
  - rewrite Hr, eventf_log. reflexivity.
  - subst rw. unfold Warnf. rewrite eventf_Recorder. reflexivity.
  - subst rw. unfold Warnf. rewrite eventf_log. reflexivity.
  - intros t. reflexivity.
Qed.

(** C9: with an empty [opts.EventReason], [eventf] hands nothing to the
    recorder and leaves the counter alone; its one effect is the log
    line.  For any options, the counter moves exactly when the reason
    is not empty and the kind read from the log context is Rollout,
    and then by one at the labels of the event. *)
Theorem eventf_empty_reason_only_logs e object warn opts opts' fmt args out :
  EventReason opts = "" →
  eventf e object warn opts fmt args out =
    (e, out ++ [mkLogLine (if warn then WarnLevel else InfoLevel) (WithObject object) fmt args]) ∧
  RolloutEventCounter (eventf e object warn opts' fmt args out).1 =
    (if decide (EventReason opts' ≠ "" ∧ eventKind object opts' = "Rollout") then
       let '(_, namespace, name) :=
         KindNamespaceName (WithField (WithObject object) "event_reason" (EventReason opts')) in
       let lvs := [namespace; name; EventType opts'; EventReason opts'] in
       <[lvs := S (default 0%nat (RolloutEventCounter e !! lvs))]> (RolloutEventCounter e)
     else RolloutEventCounter e).
Proof.
  intros Hempty. split; [|apply eventf_counter].
  unfold eventf. rewrite decide_False by (intros Hne; done). by destruct warn.
Qed.

End EventfProofs.

(** ** The record.go properties on the sample instances *)

Lemma Eventf_defaults_to_Normal_and_Warnf_forces_Warning_witness :
  Recorder (@Eventf sampleObject sampleLogUtil sampleNotifications sampleAdapter sampleRollout
              (mkEventOptions "" "RolloutUpdated") "Rollout updated" [] []).1
    = [mkK8sEvent sampleRollout "Normal" "RolloutUpdated" "Rollout updated" []] ∧
  Recorder (@Warnf sampleObject sampleLogUtil sampleNotifications sampleAdapter sampleRollout
              (mkEventOptions "Normal" "RolloutAborted") "Rollout updated" [] []).1
    = [mkK8sEvent sampleRollout "Warning" "RolloutAborted" "Rollout updated" []].
Proof.
  pose proof (@Eventf_defaults_to_Normal_and_Warnf_forces_Warning
                sampleObject sampleLogUtil sampleNotifications sampleAdapter sampleRollout
                (mkEventOptions "" "RolloutUpdated") (mkEventOptions "Normal" "RolloutAborted")
                "Rollout updated" [] [] eq_refl) as H.
  cbv zeta in H. destruct H as (_ & HE & _ & HW & _).
  split; [exact HE | exact HW].
Defined.

Lemma eventf_empty_reason_only_logs_witness :
  @eventf sampleObject sampleLogUtil sampleNotifications sampleAdapter sampleRollout true
     (mkEventOptions "Warning" "") "no reason" [] []
  = (sampleAdapter,
     [mkLogLine WarnLevel (@WithObject _ sampleLogUtil sampleRollout) "no reason" []]).
Proof.
  pose proof (@eventf_empty_reason_only_logs
                sampleObject sampleLogUtil sampleNotifications sampleAdapter sampleRollout true
                (mkEventOptions "Warning" "") (mkEventOptions "Normal" "RolloutUpdated")
                "no reason" [] [] eq_refl) as [H _].
  exact H.
Defined.


(* ===================================================================== *)
(** * Properties of the reconciliation engine                             *)
(* ===================================================================== *)

(** ** Validation *)

(** C2: a spec whose strategy kind is unknown is rejected with a
    ValidationError, whatever strategy engine the Reconciler is given:
    the engine is not reached, and status and managed resources stay as
    they were. *)
Theorem unknown_strategy_is_rejected_unchanged
    (engine : RolloutSpec → RolloutStatus → ClusterState → Reconciled) spec st cl key :
  strategy spec = UnknownStrategy key →
  Reconciler engine spec st cl =
    mkReconciled st cl (Rejected (ValidationError ("unknown strategy kind: " +:+ key))) ∧
  status (reconcile spec st cl) = st ∧
  cluster (reconcile spec st cl) = cl ∧
  outcome (reconcile spec st cl) =
    Rejected (ValidationError ("unknown strategy kind: " +:+ key)).
Proof.
  intros Hkind.
  assert (Hval : validate spec = Some ("unknown strategy kind: " +:+ key)).
  { unfold validate. rewrite Hkind. reflexivity. }
  unfold reconcile, Reconciler. rewrite Hval. cbn. repeat split; reflexivity.
Qed.

Lemma unknown_strategy_is_rejected_unchanged_witness :
  Reconciler StrategyEngine invalid_rollout emptyStatus (scenarioCluster 0) =
    mkReconciled emptyStatus (scenarioCluster 0)
      (Rejected (ValidationError "unknown strategy kind: unknown-strategy")).
Proof.
  exact (proj1 (unknown_strategy_is_rejected_unchanged StrategyEngine invalid_rollout
                  emptyStatus (scenarioCluster 0) "unknown-strategy" eq_refl)).
Defined.

(** ** ReplicaSetManager *)

Lemma ceil_percent (a : Z) :
  100 * ((a + 99) / 100) - 100 < a ≤ 100 * ((a + 99) / 100).
Proof.
  pose proof (Z.div_mod (a + 99) 100 ltac:(lia)) as Hdm.
  pose proof (Z.mod_pos_bound (a + 99) 100 ltac:(lia)) as Hb.
  lia.
Qed.

Lemma reconcileReplicaCounts_sum stable canary desiredWeight totalReplicas :
  (reconcileReplicaCounts stable canary desiredWeight totalReplicas).1 +
  (reconcileReplicaCounts stable canary desiredWeight totalReplicas).2 = totalReplicas.
Proof. unfold reconcileReplicaCounts. cbn. lia. Qed.

Lemma reconcileReplicaCounts_full stable canary totalReplicas :
  reconcileReplicaCounts stable canary 100 totalReplicas = (0, totalReplicas).
Proof.
  unfold reconcileReplicaCounts.
  pose proof (ceil_percent (totalReplicas * 100)) as H.
  assert ((totalReplicas * 100 + 99) / 100 = totalReplicas) as -> by lia.
  f_equal. lia.
Qed.

(** C3: for a non-negative total and a weight within [0,100],
    [reconcileReplicaCounts] yields as canary count the ceiling of
    [totalReplicas * desiredWeight / 100] (the least count [c] with
    [totalReplicas * desiredWeight ≤ 100 * c]) and as stable count the
    rest of the total; the counts depend on nothing else; both lie within
    [0, totalReplicas]; and 5 replicas at weight 20, as in the manifest
    [rollout-ref-deployment], give canary 1 and stable 4. *)
Theorem reconcileReplicaCounts_is_ceiling stable canary desiredWeight totalReplicas :
  0 ≤ totalReplicas →
  0 ≤ desiredWeight ≤ 100 →
  let stableCount := (reconcileReplicaCounts stable canary desiredWeight totalReplicas).1 in
  let canaryCount := (reconcileReplicaCounts stable canary desiredWeight totalReplicas).2 in
  totalReplicas * desiredWeight ≤ 100 * canaryCount ∧
  (∀ c, totalReplicas * desiredWeight ≤ 100 * c → canaryCount ≤ c) ∧
  stableCount = totalReplicas - canaryCount ∧
  0 ≤ canaryCount ≤ totalReplicas ∧
  0 ≤ stableCount ≤ totalReplicas ∧
  (∀ stable' canary',
     reconcileReplicaCounts stable' canary' desiredWeight totalReplicas =
       (stableCount, canaryCount)) ∧
  reconcileReplicaCounts stable canary 20 (replicas rollout_ref_deployment) = (4, 1).
Proof.
  intros Htotal Hweight stableCount canaryCount.
  subst stableCount canaryCount. unfold reconcileReplicaCounts. cbn [fst snd].
  pose proof (ceil_percent (totalReplicas * desiredWeight)) as Hceil.
  set (c := (totalReplicas * desiredWeight + 99) / 100) in *.
  assert (Hle : totalReplicas * desiredWeight ≤ totalReplicas * 100) by nia.
  split; [lia|]. split; [intros c' Hc'; lia|]. split; [reflexivity|].
  split; [lia|]. split; [lia|]. split; [reflexivity|].
  vm_compute. reflexivity.
Qed.

Lemma reconcileReplicaCounts_is_ceiling_witness :
  (reconcileReplicaCounts (mkRef "stable" 5) (mkRef "canary" 0) 20 5).2 = 1 ∧
  (reconcileReplicaCounts (mkRef "stable" 5) (mkRef "canary" 0) 20 5).1 = 4.
Proof.
  pose proof (reconcileReplicaCounts_is_ceiling (mkRef "stable" 5) (mkRef "canary" 0) 20 5
                ltac:(lia) ltac:(lia)) as H.
  cbv zeta in H. destruct H as (_ & _ & _ & _ & _ & _ & H).
  change (replicas rollout_ref_deployment) with 5 in H.
  rewrite H. split; reflexivity.
Defined.

(** ** Replica counts of a converged step *)



(** Unfolding of the engine down to the answers it branches on. *)
Ltac engine_unfold :=
  unfold canaryEngine, bluegreenEngine, evalStep, evalPreview, promote, abortBranch,
    initRollout, applyWeight, converge, routeSetWeight, manageReplicas,
    reconcileReplicaCounts, pollGate, startAnalysis, terminateAnalysis, poll in *.

Ltac fields :=
  cbn [status cluster outcome
       currentStepIndex currentStepWeight stableRS currentPodHash replicaSets
       pauseConditions analysisRun abort phase message
       now rsTarget rsCurrent routeAnswer routeApplied analysisStarted
       analysisTerminated analysisPhase resumeSignal
       set_weight set_replicaSets set_phase set_pause set_analysisRun
       set_rsTarget set_routeApplied scaleTo advance stableRef canaryRef
       currentCount fst snd revision count] in *.

Ltac engine_step := cbv beta iota zeta in *; fields.





(** ** The step index *)




(** ** The recorded traffic weight *)

(** What one reconcile call does to the recorded weight and to the weight
    applied to the routing capability: both follow the answer of
    [converge] to the weight the call requests, and a call whose request
    is not applied asks to be requeued. *)
Lemma initRollout_weight spec st cl :
  currentStepWeight (status (initRollout spec st cl)) = currentStepWeight st ∧
  routeApplied (cluster (initRollout spec st cl)) = routeApplied cl.
Proof. unfold initRollout, terminateAnalysis. by destruct (analysisRun st). Qed.

Lemma reconcile_weight spec st cl :
  match requestedWeight spec st cl with
  | Some w =>
      if (converge (currentStepWeight st) w cl).2
      then currentStepWeight (status (reconcile spec st cl)) = w ∧
           routeApplied (cluster (reconcile spec st cl)) = w
      else currentStepWeight (status (reconcile spec st cl)) = currentStepWeight st ∧
           routeApplied (cluster (reconcile spec st cl)) = routeApplied cl ∧
           ∃ after, outcome (reconcile spec st cl) = Requeue after
  | None =>
      currentStepWeight (status (reconcile spec st cl)) = currentStepWeight st ∧
      routeApplied (cluster (reconcile spec st cl)) = routeApplied cl
  end.
Proof.
  unfold requestedWeight, reconcile, Reconciler, StrategyEngine, gateFails, gatePasses.
  destruct (validate spec); [by split|].
  destruct (strategy spec) as [steps|cfg|key]; [| |by split].
  - unfold canaryEngine.
    destruct (currentStepIndex st) as [i|].
    2:{ destruct (newTemplate spec st); [apply initRollout_weight|by split]. }
    destruct (abort st).
    { engine_unfold; engine_step. destruct (routeAnswer cl 0); engine_step; destruct (decide (_ = _)); engine_step; eauto. }
    destruct (newTemplate spec st); [apply initRollout_weight|].
    destruct (steps !! i) as [[w|d|template args|ref]|]; engine_unfold; engine_step.
    + destruct (routeAnswer cl (clamp w)); engine_step;
        destruct (_ && _); engine_step; eauto.
    + destruct (pauseConditions st); engine_step; [by split|].
      destruct (pauseOver _ _ _); by split.
    + destruct (analysisRun st) as [h|]; engine_step; [|by split].
      destruct (analysisPhase cl h); engine_step; try by split.
      all: destruct (routeAnswer cl 0); engine_step; destruct (decide (_ = _)); engine_step; eauto.
    + by split.
    + destruct (routeAnswer cl 100); engine_step; eauto.
  - unfold bluegreenEngine.
    destruct (decide (currentPodHash st = stableRS st)).
    { destruct (newTemplate spec st); [apply initRollout_weight|by split]. }
    destruct (abort st).
    { engine_unfold; engine_step. destruct (routeAnswer cl 0); engine_step; destruct (decide (_ = _)); engine_step; eauto. }
    destruct (newTemplate spec st); [apply initRollout_weight|].
    engine_unfold; engine_step.
    destruct (negb _); engine_step; [by split|].
    destruct (gate cfg) as [[template args]|]; engine_step.
    + destruct (analysisRun st) as [h|]; engine_step; [|by split].
      destruct (analysisPhase cl h); engine_step; try by split.
      * destruct (autoPromote cfg || resumeSignal cl); cbn [andb]; engine_step.
        -- destruct (routeAnswer cl 100); engine_step; eauto.
        -- destruct (pauseConditions st); by split.
      * destruct (routeAnswer cl 0); engine_step; destruct (decide (_ = _)); engine_step; eauto.
      * destruct (routeAnswer cl 0); engine_step; destruct (decide (_ = _)); engine_step; eauto.
    + destruct (autoPromote cfg || resumeSignal cl); engine_step.
      * destruct (routeAnswer cl 100); engine_step; eauto.
      * destruct (pauseConditions st); by split.
Qed.

Lemma reconcile_keeps_weight_applied spec st cl :
  currentStepWeight st = routeApplied cl →
  currentStepWeight (status (reconcile spec st cl)) = routeApplied (cluster (reconcile spec st cl)).
Proof.
  intros Hinv. pose proof (reconcile_weight spec st cl) as H.
  destruct (requestedWeight spec st cl) as [w|].
  - destruct (converge _ _ _).2.
    + destruct H as [-> ->]. reflexivity.
    + destruct H as (-> & -> & _). exact Hinv.
  - destruct H as [-> ->]. exact Hinv.
Qed.

Lemma reachable_weight_applied spec st cl :
  reachable spec st cl → currentStepWeight st = routeApplied cl.
Proof.
  induction 1 as [spec cl H0|spec st cl spec' st' cl' _ IH Hst Hcl|spec st cl _ IH].
  - cbn. by rewrite H0.
  - by rewrite Hst, Hcl.
  - by apply reconcile_keeps_weight_applied.
Qed.

(** C6: in every reachable triple the weight recorded in status is the
    weight last successfully applied to the routing capability, and the
    next reconcile call keeps it so: the recorded weight becomes the
    requested one exactly when [converge] answers true; when it answers
    false the recorded weight stays and the call asks to be requeued. *)
Theorem recorded_weight_is_last_applied_weight spec st cl :
  reachable spec st cl →
  currentStepWeight st = routeApplied cl ∧
  currentStepWeight (status (reconcile spec st cl)) =
    routeApplied (cluster (reconcile spec st cl)) ∧
  match requestedWeight spec st cl with
  | Some w =>
      if (converge (currentStepWeight st) w cl).2
      then currentStepWeight (status (reconcile spec st cl)) = w
      else currentStepWeight (status (reconcile spec st cl)) = currentStepWeight st ∧
           ∃ after, outcome (reconcile spec st cl) = Requeue after
  | None => currentStepWeight (status (reconcile spec st cl)) = currentStepWeight st
  end.
Proof.
  intros Hreach. pose proof (reachable_weight_applied _ _ _ Hreach) as Hinv.
  split; [exact Hinv|]. split; [by apply reconcile_keeps_weight_applied|].
  pose proof (reconcile_weight spec st cl) as H.
  destruct (requestedWeight spec st cl) as [w|].
  - destruct (converge _ _ _).2; [by destruct H|]. destruct H as (? & _ & ?). by split.
  - by destruct H.
Qed.

Lemma recorded_weight_is_last_applied_weight_witness :
  currentStepWeight
    (status (reconcile rollout_ref_deployment
               (status (reconcile rollout_ref_deployment emptyStatus (scenarioCluster 0)))
               (cluster (reconcile rollout_ref_deployment emptyStatus (scenarioCluster 0))))) = 20 ∧
  routeApplied
    (cluster (reconcile rollout_ref_deployment
               (status (reconcile rollout_ref_deployment emptyStatus (scenarioCluster 0)))
               (cluster (reconcile rollout_ref_deployment emptyStatus (scenarioCluster 0))))) = 20.
Proof.
  destruct (recorded_weight_is_last_applied_weight rollout_ref_deployment
              (status (reconcile rollout_ref_deployment emptyStatus (scenarioCluster 0)))
              (cluster (reconcile rollout_ref_deployment emptyStatus (scenarioCluster 0)))
              (reach_reconcile _ _ _
                 (reach_first rollout_ref_deployment (scenarioCluster 0) eq_refl)))
    as (_ & H & _).
  rewrite <- H. split; vm_compute; reflexivity.
Defined.

(** ** Running the Reconciler twice *)













(* ===================================================================== *)
(** * Further properties of utils/record/record.go                        *)
(* ===================================================================== *)

(** ** [reverseMap] on arbitrary maps *)

Lemma reverse_loop_keeps (entries : list (string * string)) (n : gmap string string) v :
  is_Some (n !! v) →
  is_Some (foldl (fun n (kv : string * string) => <[kv.2 := kv.1]> n) n entries !! v).
Proof.
  revert n. induction entries as [|[k0 v0] entries IH]; intros n Hn; [done|].
  cbn [foldl]. apply IH. cbn. destruct (decide (v0 = v)) as [->|Hne].
  - rewrite lookup_insert_eq. by eexists.
  - by rewrite lookup_insert_ne.
Qed.

Lemma reverse_loop_bound (entries : list (string * string)) (n : gmap string string) k v :
  (k, v) ∈ entries →
  is_Some (foldl (fun n (kv : string * string) => <[kv.2 := kv.1]> n) n entries !! v).
Proof.
  revert n. induction entries as [|[k0 v0] entries IH]; intros n Hin.
  - by apply elem_of_nil in Hin.
  - cbn [foldl]. apply elem_of_cons in Hin as [Heq|Hin]; [|by apply IH].
    apply pair_equal_spec in Heq as [-> ->].
    apply reverse_loop_keeps. cbn. rewrite lookup_insert_eq. by eexists.
Qed.

(** X1: whatever the map and whatever the order in which the range
    visits its entries, every entry of the reversed map is an entry of
    the map turned round, and the keys of the reversed map are exactly
    the values of the map.  (Injectivity is not needed: of two keys with
    one value, one survives.) *)
Theorem reverseMap_entries_come_from_the_map (m : gmap string string)
    (entries : list (string * string)) :
  entries ≡ₚ map_to_list m →
  (∀ v k, reverseMap_in entries !! v = Some k → m !! k = Some v) ∧
  (∀ v, is_Some (reverseMap_in entries !! v) ↔ ∃ k, m !! k = Some v).
Proof.
  intros Hperm. unfold reverseMap_in.
  assert (Hsound : ∀ v k,
             foldl (fun n (kv : string * string) => <[kv.2 := kv.1]> n) (∅ : gmap string string) entries !! v = Some k →
             m !! k = Some v).
  { intros v k Hl. apply reverse_loop_origin in Hl as [Hin|Hl].
    - rewrite Hperm in Hin. by apply elem_of_map_to_list.
    - by rewrite lookup_empty in Hl. }
  split; [exact Hsound|].
  intros v. split.
  - intros [k Hk]. exists k. by apply Hsound.
  - intros [k Hk]. apply (reverse_loop_bound entries ∅ k v).
    rewrite Hperm. by apply elem_of_map_to_list.
Qed.

Lemma reverseMap_entries_come_from_the_map_witness :
  is_Some (reverseMap {[ "on-a" := "Reason"; "on-b" := "Reason" ]} !! "Reason") ∧
  reverseMap {[ "on-a" := "Reason"; "on-b" := "Reason" ]} !! "Other" = None.
Proof.
  destruct (reverseMap_entries_come_from_the_map
              {[ "on-a" := "Reason"; "on-b" := "Reason" ]}
              (map_to_list {[ "on-a" := "Reason"; "on-b" := "Reason" ]})
              (reflexivity _)) as [_ Hkeys].
  split.
  - apply Hkeys. exists "on-a". vm_compute. reflexivity.
  - vm_compute. reflexivity.
Defined.

Lemma reverse_loop_size (entries : list (string * string)) (n : gmap string string) :
  (size (foldl (fun n (kv : string * string) => <[kv.2 := kv.1]> n) n entries)
   ≤ size n + length entries)%nat.
Proof.
  revert n. induction entries as [|[k0 v0] entries IH]; intros n; cbn [foldl length].
  - lia.
  - etrans; [apply IH|]. cbn. rewrite map_size_insert.
    destruct (n !! v0); unfold id; lia.
Qed.

Lemma reverse_loop_size_fresh (entries : list (string * string)) (n : gmap string string) :
  NoDup entries.*2 →
  (∀ v, v ∈ entries.*2 → n !! v = None) →
  size (foldl (fun n (kv : string * string) => <[kv.2 := kv.1]> n) n entries)
  = (size n + length entries)%nat.
Proof.
  revert n. induction entries as [|[k0 v0] entries IH]; intros n Hnd Hfresh;
    cbn [foldl length].
  - lia.
  - rewrite fmap_cons in Hnd. apply NoDup_cons in Hnd as [Hv0 Hnd].
    rewrite IH; [| done |].
    + cbn. rewrite map_size_insert_None; [lia|].
      apply Hfresh. rewrite fmap_cons. apply elem_of_cons. by left.
    + intros v Hv. cbn. rewrite lookup_insert_ne.
      * apply Hfresh. rewrite fmap_cons. apply elem_of_cons. by right.
      * intros ->. done.
Qed.

Lemma reverseMap_injective (m : gmap string string) :
  (∀ k1 k2 v, m !! k1 = Some v → m !! k2 = Some v → k1 = k2) →
  ∀ v1 v2 k, reverseMap m !! v1 = Some k → reverseMap m !! v2 = Some k → v1 = v2.
Proof.
  intros Hinj v1 v2 k H1 H2.
  apply (reverseMap_inverse m Hinj) in H1, H2. congruence.
Qed.

(** X2: on an injective map, reversing twice gives the map back, and the
    reversed map has as many entries as the map. *)
Theorem reverseMap_twice (m : gmap string string) :
  (∀ k1 k2 v, m !! k1 = Some v → m !! k2 = Some v → k1 = k2) →
  reverseMap (reverseMap m) = m ∧ size (reverseMap m) = size m.
Proof.
  intros Hinj. split.
  - apply map_eq. intros k.
    pose proof (reverseMap_inverse (reverseMap m) (reverseMap_injective m Hinj)) as Hrr.
    pose proof (reverseMap_inverse m Hinj) as Hr.
    destruct (m !! k) as [v|] eqn:Hm.
    + apply Hrr, Hr. exact Hm.
    + destruct (reverseMap (reverseMap m) !! k) as [v|] eqn:Hk; [|reflexivity].
      apply Hrr, Hr in Hk. congruence.
  - unfold reverseMap, reverseMap_in. rewrite reverse_loop_size_fresh.
    + rewrite map_size_empty, length_map_to_list. lia.
    + apply NoDup_fmap_2_strong; [|apply NoDup_map_to_list].
      intros [k1 v1] [k2 v2] H1 H2 Heq. cbn in Heq. subst v2.
      apply elem_of_map_to_list in H1, H2. f_equal. eauto.
    + intros v _. apply lookup_empty.
Qed.

Lemma reverseMap_twice_witness :
  reverseMap (reverseMap (@BuiltInTriggers sampleConditions)) = @BuiltInTriggers sampleConditions ∧
  size (reverseMap (@BuiltInTriggers sampleConditions)) = size (@BuiltInTriggers sampleConditions).
Proof.
  apply (reverseMap_twice (@BuiltInTriggers sampleConditions)).
  apply (@BuiltInTriggers_injective sampleConditions).
  refine (bool_decide_unpack _ _). vm_compute. exact I.
Defined.

(** X3: on an injective map the order in which the range visits the
    entries does not show: any two enumerations of the entries yield the
    same reversed map. *)
Theorem reverseMap_any_two_orders_agree (m : gmap string string)
    (entries1 entries2 : list (string * string)) :
  (∀ k1 k2 v, m !! k1 = Some v → m !! k2 = Some v → k1 = k2) →
  entries1 ≡ₚ map_to_list m →
  entries2 ≡ₚ map_to_list m →
  reverseMap_in entries1 = reverseMap_in entries2.
Proof.
  intros Hinj H1 H2.
  rewrite (reverseMap_order_irrelevant m entries1 Hinj H1).
  by rewrite (reverseMap_order_irrelevant m entries2 Hinj H2).
Qed.

Lemma reverseMap_any_two_orders_agree_witness :
  reverseMap_in (map_to_list (@BuiltInTriggers sampleConditions)) =
  reverseMap_in (reverse (map_to_list (@BuiltInTriggers sampleConditions))).
Proof.
  apply (reverseMap_any_two_orders_agree (@BuiltInTriggers sampleConditions)).
  - apply (@BuiltInTriggers_injective sampleConditions).
    refine (bool_decide_unpack _ _). vm_compute. exact I.
  - reflexivity.
  - apply reverse_Permutation.
Defined.

(** X4: whatever the map, the reversed map has no more entries than the
    map (keys that share a value collapse into one entry). *)
Theorem reverseMap_size (m : gmap string string) :
  (size (reverseMap m) ≤ size m)%nat.
Proof.
  unfold reverseMap, reverseMap_in.
  etrans; [apply reverse_loop_size|]. rewrite map_size_empty, length_map_to_list. lia.
Qed.

Section ExtraBuiltInTriggers.
Context `{!Conditions}.

(** X5: whatever the four reason constants are (also if two of them
    coincide), every entry of [EventReasonToTrigger] pairs a reason with
    a built-in trigger of that reason, and its keys are exactly the four
    reasons: an event reason that is none of them has no trigger. *)
Theorem EventReasonToTrigger_entries_are_built_in (r : string) :
  (∀ t, EventReasonToTrigger !! r = Some t → BuiltInTriggers !! t = Some r) ∧
  (is_Some (EventReasonToTrigger !! r) ↔
   r ∈ [RolloutCompletedReason; RolloutStepCompletedReason;
        ScalingReplicaSetReason; RolloutUpdatedReason]).
Proof.
  assert (Hsound : ∀ t, EventReasonToTrigger !! r = Some t → BuiltInTriggers !! t = Some r).
  { intros t Ht. unfold EventReasonToTrigger, reverseMap, reverseMap_in in Ht.
    apply reverse_loop_origin in Ht as [Hin|Ht].
    - by apply elem_of_map_to_list.
    - by rewrite lookup_empty in Ht. }
  split; [exact Hsound|].
  rewrite !elem_of_cons, elem_of_nil. split.
  - intros [t Ht]. apply Hsound, BuiltInTriggers_lookup in Ht.
    rewrite !elem_of_cons, elem_of_nil in Ht.
    destruct Ht as [Ht|[Ht|[Ht|[Ht|[]]]]]; apply pair_equal_spec in Ht as [_ ->]; tauto.
  - intros Hr.
    assert (∃ t, BuiltInTriggers !! t = Some r) as [t Ht].
    { setoid_rewrite BuiltInTriggers_lookup.
      destruct Hr as [->|[->|[->|[->|[]]]]]; eexists; rewrite !elem_of_cons; eauto 6. }
    unfold EventReasonToTrigger, reverseMap, reverseMap_in.
    apply (reverse_loop_bound _ ∅ t r). by apply elem_of_map_to_list.
Qed.
End ExtraBuiltInTriggers.

(** ** [Eventf], [Warnf] and [eventf]: types, levels, sequences *)

Section ExtraEventf.
Context {Object : Type} `{!LogUtil Object} `{!Notifications Object} `{!Conditions}.
Implicit Types (e : EventRecorderAdapter Object) (object : Object)
  (opts : EventOptions) (out : list LogLine) (c : @Call Object)
  (s : EventRecorderAdapter Object * list LogLine).

(** X6: [Eventf] does not validate the event type.  Its line is logged at
    Warn level exactly when the type is the string Warning, at Info level
    for every other type; an empty type is handed to the recorder as
    Normal and any other type as it was passed. *)
Theorem Eventf_level_follows_the_type e object opts fmt args out :
  (Eventf e object opts fmt args out).2 =
    out ++ [mkLogLine (if decide (EventType opts = "Warning") then WarnLevel else InfoLevel)
              (eventLogCtx object opts) fmt args] ∧
  Recorder (Eventf e object opts fmt args out).1 =
    Recorder e ++
      (if decide (EventReason opts = "") then []
       else [mkK8sEvent object
               (if decide (EventType opts = "") then "Normal" else EventType opts)
               (EventReason opts) fmt args]).
Proof.
  unfold Eventf. rewrite eventf_log, eventf_Recorder.
  destruct (decide (EventType opts = "")) as [Hempty|Hne]; cbn [EventType EventReason set_EventType].
  - rewrite Hempty. split; reflexivity.
  - split; [|reflexivity]. unfold EventTypeWarning.
    destruct (decide (EventType opts = "Warning")) as [Hw|Hw].
    + by rewrite bool_decide_eq_true_2.
    + by rewrite bool_decide_eq_false_2.
Qed.

(** X7: a call of [Eventf] whose options carry the type Warning is the
    same call as [Warnf] with those options. *)
Theorem Eventf_with_Warning_is_Warnf e object opts fmt args out :
  EventType opts = "Warning" →
  Eventf e object opts fmt args out = Warnf e object opts fmt args out.
Proof.
  intros Hw. unfold Eventf, Warnf.
  destruct (decide (EventType opts = "")) as [Hempty|_].
  { rewrite Hw in Hempty. discriminate Hempty. }
  rewrite bool_decide_eq_true_2 by exact Hw.
  f_equal. destruct opts as [t r]. cbn in Hw. subst t. reflexivity.
Qed.

(** X8: the line [eventf] writes carries the fields of the object's log
    context; with a reason, the field [event_reason] holds it (replacing
    a field of that name the object's context may have had), and no other
    field is touched; without a reason the context is the object's own. *)
Theorem eventf_line_fields e object warn opts fmt args out (key : string) :
  (eventf e object warn opts fmt args out).2 =
    out ++ [mkLogLine (if warn then WarnLevel else InfoLevel) (eventLogCtx object opts) fmt args] ∧
  Data (eventLogCtx object opts) !! key =
    (if decide (EventReason opts ≠ "" ∧ key = "event_reason")
     then Some (EventReason opts)
     else Data (WithObject object) !! key).
Proof.
  split; [apply eventf_log|].
  unfold eventLogCtx. destruct (decide (EventReason opts ≠ "")) as [Hr|Hr].
  - cbn. destruct (decide (key = "event_reason")) as [->|Hk].
    + rewrite decide_True by (split; [exact Hr|reflexivity]). apply lookup_insert_eq.
    + rewrite decide_False by (intros [_ ?]; contradiction).
      apply lookup_insert_ne. congruence.
  - rewrite decide_False by (intros [? _]; contradiction). reflexivity.
Qed.

Lemma call_Recorder s c :
  Recorder (call s c).1 = Recorder s.1 ++ option_list (handedEvent c).
Proof.
  destruct c as [object opts fmt args|object opts fmt args]; cbn [call].
  - unfold Eventf. rewrite eventf_Recorder.
    unfold handedEvent, callReason, callType.
    destruct (decide (EventType opts = "")); cbn [EventType EventReason set_EventType];
      by destruct (decide (EventReason opts = "")).
  - unfold Warnf. rewrite eventf_Recorder.
    unfold handedEvent, callReason, callType. cbn [EventType EventReason set_EventType].
    by destruct (decide (EventReason opts = "")).
Qed.

Lemma call_apiFactory s c : apiFactory (call s c).1 = apiFactory s.1.
Proof.
  destruct c as [object opts fmt args|object opts fmt args]; cbn [call];
    unfold Eventf, Warnf; apply eventf_apiFactory.
Qed.

Lemma omap_option_list {A B} (f : A → option B) (x : A) (l : list A) :
  omap f (x :: l) = option_list (f x) ++ omap f l.
Proof. cbn. by destruct (f x). Qed.

(** X9: a sequence of [Eventf] and [Warnf] calls hands to the Kubernetes
    recorder, in call order, the events of exactly those calls that
    carry a reason (nothing is dropped, reordered or handed twice), and
    leaves the notifications factory as it was; on a recorder made by
    [NewEventRecorder] the events are those of the calls alone. *)
Theorem calls_hand_events_in_order s (cs : list (@Call Object)) rolloutEventCounter factory out :
  Recorder (calls s cs).1 = Recorder s.1 ++ omap handedEvent cs ∧
  GetAPIFactory (calls s cs).1 = GetAPIFactory s.1 ∧
  K8sRecorder (calls (NewEventRecorder rolloutEventCounter factory, out) cs).1 =
    omap handedEvent cs.
Proof.
  assert (Hgen : ∀ s', Recorder (calls s' cs).1 = Recorder s'.1 ++ omap handedEvent cs).
  { unfold calls. induction cs as [|c cs IH]; intros s'.
    - cbn. by rewrite app_nil_r.
    - cbn [foldl]. rewrite IH, call_Recorder, omap_option_list. by rewrite app_assoc. }
  split; [apply Hgen|]. split.
  - clear Hgen. unfold GetAPIFactory, calls. revert s.
    induction cs as [|c cs IH]; intros s; [done|].
    cbn [foldl]. rewrite IH. apply call_apiFactory.
  - unfold K8sRecorder. rewrite Hgen. reflexivity.
Qed.

Lemma call_counter s c (lvs : list string) :
  default 0%nat (RolloutEventCounter (call s c).1 !! lvs) =
    (default 0%nat (RolloutEventCounter s.1 !! lvs) +
     (if decide (countedLabels c = Some lvs) then 1 else 0))%nat.
Proof.
  assert (Hev : ∀ e object warn opts fmt args out,
             default 0%nat (RolloutEventCounter (eventf e object warn opts fmt args out).1 !! lvs) =
             (default 0%nat (RolloutEventCounter e !! lvs) +
              (if decide
                    ((let '(kind, namespace, name) :=
                        KindNamespaceName (WithField (WithObject object) "event_reason"
                                             (EventReason opts)) in
                      if decide (EventReason opts ≠ "" ∧ kind = "Rollout")
                      then Some [namespace; name; EventType opts; EventReason opts]
                      else None) = Some lvs)
               then 1 else 0))%nat).
  { intros e object warn opts fmt args out. rewrite eventf_counter. unfold eventKind.
    destruct (KindNamespaceName _) as [[kind namespace] name]. cbn [fst snd].
    destruct (decide (EventReason opts ≠ "" ∧ kind = "Rollout")) as [Hc|Hc].
    - cbv zeta.
      destruct (decide (Some [namespace; name; EventType opts; EventReason opts] = Some lvs))
        as [Heq|Hne].
      + injection Heq as <-. rewrite lookup_insert_eq. cbn. lia.
      + rewrite lookup_insert_ne by congruence. lia.
    - rewrite decide_False by discriminate. lia. }
  destruct c as [object opts fmt args|object opts fmt args]; cbn [call].
  - unfold Eventf. rewrite Hev. unfold countedLabels, callObject, callReason, callType.
    destruct (decide (EventType opts = "")); reflexivity.
  - unfold Warnf. rewrite Hev. reflexivity.
Qed.

(** X10: over a sequence of calls, the counter of a label vector grows by
    the number of calls that count under that vector (calls with a reason
    on an object whose kind reads Rollout); no count of the vector is
    ever lowered or reset. *)
Theorem calls_count_events s (cs : list (@Call Object)) (lvs : list string) :
  default 0%nat (RolloutEventCounter (calls s cs).1 !! lvs) =
    (default 0%nat (RolloutEventCounter s.1 !! lvs) +
     length (filter (fun c => countedLabels c = Some lvs) cs))%nat.
Proof.
  unfold calls. revert s. induction cs as [|c cs IH]; intros s.
  - cbn. lia.
  - cbn [foldl]. rewrite IH, call_counter, filter_cons.
    destruct (decide (countedLabels c = Some lvs)); cbn [length]; lia.
Qed.

(** X11: on the recorder of [NewFakeEventRecorder], a call with a reason
    on a Rollout creates the one series of the label values (namespace,
    name, type, reason), four values for the four labels of the vector.
    The vector declares its labels in the order name, namespace, type,
    reason: by position, the label [name] holds the namespace of the
    object and the label [namespace] its name. *)
Theorem fake_counter_labels_by_position object opts fmt args out (namespace name : string) :
  KindNamespaceName (WithField (WithObject object) "event_reason" (EventReason opts))
    = ("Rollout", namespace, name) →
  EventReason opts ≠ "" →
  let values := [namespace; name;
                 if decide (EventType opts = "") then "Normal" else EventType opts;
                 EventReason opts] in
  RolloutEventCounter (Eventf NewFakeEventRecorder object opts fmt args out).1
    = {[ values := 1%nat ]} ∧
  length values = length fakeCounterLabels ∧
  labelled fakeCounterLabels values !! "name" = Some namespace ∧
  labelled fakeCounterLabels values !! "namespace" = Some name.
Proof.
  intros Hkind Hreason values. split; [|split; [reflexivity|split; reflexivity]].
  unfold Eventf. rewrite eventf_counter. unfold eventKind.
  assert (HR : ∀ t, EventReason (if decide (EventType opts = "")
                                  then set_EventType opts t else opts) = EventReason opts).
  { intros t. by destruct (decide (EventType opts = "")). }
  rewrite !HR, Hkind. cbn [fst snd].
  rewrite decide_True by (split; [exact Hreason|reflexivity]).
  cbv zeta. subst values. unfold EventTypeNormal.
  destruct (decide (EventType opts = "")); cbn; rewrite lookup_empty; reflexivity.
Qed.
End ExtraEventf.

(** ** [sendNotifications]: subscriptions, templates, errors *)

Section ExtraSend.
Context {Object : Type} `{!LogUtil Object} `{!Notifications Object} `{!Conditions}.
Implicit Types (e : EventRecorderAdapter Object) (object : Object)
  (opts : EventOptions) (out : list LogLine).

Lemma subscribed_nil_cases object opts annotations :
  GetAnnotations object = Some annotations →
  subscribedDestinations object opts = [] →
  EventReasonToTrigger !! EventReason opts = None ∨
  ∃ trigger, EventReasonToTrigger !! EventReason opts = Some trigger ∧
             default [] (GetDestinations annotations !! trigger) = [].
Proof.
  intros Hann Hsub. unfold subscribedDestinations in Hsub. rewrite Hann in Hsub.
  destruct (EventReasonToTrigger !! EventReason opts) as [trigger|]; [|by left].
  right. by exists trigger.
Qed.

(** X12: for an object that is not subscribed (its event reason is not
    the reason of a built-in trigger, or its annotations name no
    destination for that trigger), [sendNotifications] returns nil and
    logs nothing, without asking the factory for an API: also with the
    nil factory or a factory that fails. *)
Theorem sendNotifications_without_subscription e object opts out annotations :
  GetAnnotations object = Some annotations →
  subscribedDestinations object opts = [] →
  sendNotifications e object opts out = (Returned None, out).
Proof.
  intros Hann Hsub.
  destruct (subscribed_nil_cases object opts annotations Hann Hsub)
    as [Hnone|(trigger & Htrig & Hdest)];
    unfold sendNotifications; rewrite Hann.
  - by rewrite Hnone.
  - rewrite Htrig, Hdest. reflexivity.
Qed.

(** X13: on the recorder of [NewFakeEventRecorder], whose factory is nil,
    [sendNotifications] panics as soon as the object is subscribed with a
    destination to the trigger of the event (and, like on every
    recorder, when the object is no [metav1.Object]); otherwise it
    returns nil.  It never sends and never logs. *)
Theorem sendNotifications_on_the_fake_recorder object opts out :
  sendNotifications NewFakeEventRecorder object opts out =
    (match GetAnnotations object with
     | None => Panicked
     | Some _ =>
         if decide (subscribedDestinations object opts = []) then Returned None
         else Panicked
     end, out).
Proof.
  unfold sendNotifications, subscribedDestinations.
  destruct (GetAnnotations object) as [annotations|]; [|reflexivity].
  destruct (EventReasonToTrigger !! EventReason opts) as [trigger|]; [|reflexivity].
  destruct (default [] (GetDestinations annotations !! trigger)) as [|dest rest];
    reflexivity.
Qed.


(** The send loop from the destinations' side. *)
Lemma sendEach_first_failure (notificationsAPI : API ObjMap) (objMap : ObjMap)
    template served dest rest err out :
  Forall (fun d => apiSend notificationsAPI objMap template d = None) served →
  apiSend notificationsAPI objMap template dest = Some err →
  sendEach notificationsAPI objMap template (served ++ dest :: rest) out =
    (Some err, out ++ [mkLogLine ErrorLevel (mkEntry ∅) "notification error: %s" [err]]).
Proof.
  intros Hserved Hdest. induction Hserved as [|d served Hd _ IH]; cbn.
  - by rewrite Hdest.
  - by rewrite Hd.
Qed.

Lemma sendEach_all_served (notificationsAPI : API ObjMap) (objMap : ObjMap)
    template destinations out :
  Forall (fun d => apiSend notificationsAPI objMap template d = None) destinations →
  sendEach notificationsAPI objMap template destinations out = (None, out).
Proof.
  intros Hall. induction Hall as [|d destinations Hd _ IH]; cbn; [done|]. by rewrite Hd.
Qed.

(** X15: the send loop stops at the first destination whose send fails:
    the error returned and logged is that of the first failing
    destination, and the destinations after it do not matter (they are
    not sent to, whatever their sends would answer). *)
Theorem sendEach_stops_at_first_failure (notificationsAPI : API ObjMap) (objMap : ObjMap)
    template served dest rest rest' err out :
  Forall (fun d => apiSend notificationsAPI objMap template d = None) served →
  apiSend notificationsAPI objMap template dest = Some err →
  sendEach notificationsAPI objMap template (served ++ dest :: rest) out =
    (Some err, out ++ [mkLogLine ErrorLevel (mkEntry ∅) "notification error: %s" [err]]) ∧
  sendEach notificationsAPI objMap template (served ++ dest :: rest) out =
    sendEach notificationsAPI objMap template (served ++ dest :: rest') out.
Proof.
  intros Hserved Hdest.
  rewrite !(sendEach_first_failure _ _ _ served dest _ err out Hserved Hdest). by split.
Qed.

(** X16: when every send succeeds, [sendNotifications] returns nil and
    logs nothing. *)
Theorem sendNotifications_all_sent e object opts out
    annotations trigger (notificationsAPI : API ObjMap) objBytes objMap :
  GetAnnotations object = Some annotations →
  EventReasonToTrigger !! EventReason opts = Some trigger →
  apiFactory e = Some (Ok notificationsAPI) →
  templatesPanic (Triggers notificationsAPI) = false →
  jsonMarshal object = Ok objBytes →
  jsonUnmarshal objBytes = Ok objMap →
  Forall (fun d => apiSend notificationsAPI objMap
                     (default [] (builtinTemplates (Triggers notificationsAPI) !! trigger)) d = None)
         (default [] (GetDestinations annotations !! trigger)) →
  sendNotifications e object opts out = (Returned None, out).
Proof.
  intros Hann Htrig Hfac Hpanic Hmar Hunmar Hall.
  unfold sendNotifications. rewrite Hann, Htrig.
  destruct (decide _); [reflexivity|].
  rewrite Hfac, Hpanic, Hmar, Hunmar, (sendEach_all_served _ _ _ _ _ Hall). reflexivity.
Qed.


Lemma templatesPanic_true (trs : gmap string (list Condition)) (name : string) :
  is_Some (BuiltInTriggers !! name) →
  trs !! name = Some [] →
  templatesPanic trs = true.
Proof.
  intros Hb Htrs. unfold templatesPanic. apply existsb_exists.
  exists (name, []). split.
  - apply list_elem_of_In. by apply elem_of_map_to_list.
  - cbn. by rewrite bool_decide_eq_true_2.
Qed.

(** X18: a built-in trigger configured with an empty list of conditions
    makes [sendNotifications] panic for every subscribed object, also
    when the event at hand belongs to another trigger: the templates of
    all built-in triggers are read before anything is sent. *)
Theorem empty_built_in_trigger_panics e object opts out
    annotations (notificationsAPI : API ObjMap) (name : string) :
  GetAnnotations object = Some annotations →
  subscribedDestinations object opts ≠ [] →
  apiFactory e = Some (Ok notificationsAPI) →
  is_Some (BuiltInTriggers !! name) →
  Triggers notificationsAPI !! name = Some [] →
  sendNotifications e object opts out = (Panicked, out).
Proof.
  intros Hann Hsub Hfac Hb Hempty.
  unfold sendNotifications. unfold subscribedDestinations in Hsub.
  rewrite Hann in *.
  destruct (EventReasonToTrigger !! EventReason opts) as [trigger|]; [|done].
  destruct (decide _) as [Hlen|_].
  { apply nil_length_inv in Hlen. contradiction. }
  rewrite Hfac, (templatesPanic_true _ name Hb Hempty). reflexivity.
Qed.

Lemma builtinTemplates_unconfigured (trs : gmap string (list Condition)) (name : string) :
  trs !! name = None → builtinTemplates trs !! name = None.
Proof.
  intros Hnone. unfold builtinTemplates.
  rewrite lookup_omap, map_lookup_filter, Hnone. reflexivity.
Qed.

(** X19: a trigger that the configuration does not list is no reason to
    skip the sends: every subscribed destination is still sent to, with
    the empty template list. *)
Theorem unconfigured_trigger_sends_without_templates e object opts out
    annotations trigger (notificationsAPI : API ObjMap) objBytes objMap :
  GetAnnotations object = Some annotations →
  EventReasonToTrigger !! EventReason opts = Some trigger →
  default [] (GetDestinations annotations !! trigger) ≠ [] →
  apiFactory e = Some (Ok notificationsAPI) →
  templatesPanic (Triggers notificationsAPI) = false →
  jsonMarshal object = Ok objBytes →
  jsonUnmarshal objBytes = Ok objMap →
  Triggers notificationsAPI !! trigger = None →
  sendNotifications e object opts out =
    (Returned (sendEach notificationsAPI objMap []
                 (default [] (GetDestinations annotations !! trigger)) out).1,
     (sendEach notificationsAPI objMap []
        (default [] (GetDestinations annotations !! trigger)) out).2).
Proof.
  intros Hann Htrig Hdest Hfac Hpanic Hmar Hunmar Hnone.
  unfold sendNotifications. rewrite Hann, Htrig.
  destruct (decide _) as [Hlen|_].
  { apply nil_length_inv in Hlen. contradiction. }
  rewrite Hfac, Hpanic, Hmar, Hunmar, (builtinTemplates_unconfigured _ _ Hnone).
  cbn [default]. by destruct (sendEach _ _ _ _ _).
Qed.

(** X20: an error of the API factory is returned as it is, before the
    object is converted and before anything is sent: the same result
    whatever the JSON conversion and the API would do. *)
Theorem factory_error_is_returned_first e object opts out annotations err :
  GetAnnotations object = Some annotations →
  subscribedDestinations object opts ≠ [] →
  apiFactory e = Some (Err err) →
  sendNotifications e object opts out = (Returned (Some err), out).
Proof.
  intros Hann Hsub Hfac.
  unfold sendNotifications. unfold subscribedDestinations in Hsub.
  rewrite Hann in *.
  destruct (EventReasonToTrigger !! EventReason opts) as [trigger|]; [|done].
  destruct (decide _) as [Hlen|_].
  { apply nil_length_inv in Hlen. contradiction. }
  by rewrite Hfac.
Qed.
End ExtraSend.

(** ** The further properties on the sample instances *)

Lemma Eventf_with_Warning_is_Warnf_witness :
  @Eventf sampleObject sampleLogUtil sampleNotifications sampleAdapter sampleRollout
     (mkEventOptions "Warning" "RolloutAborted") "aborted" [] []
  = @Warnf sampleObject sampleLogUtil sampleNotifications sampleAdapter sampleRollout
      (mkEventOptions "Warning" "RolloutAborted") "aborted" [] [].
Proof.
  exact (@Eventf_with_Warning_is_Warnf sampleObject sampleLogUtil sampleNotifications
           sampleAdapter sampleRollout (mkEventOptions "Warning" "RolloutAborted")
           "aborted" [] [] eq_refl).
Defined.

Lemma fake_counter_labels_by_position_witness :
  labelled fakeCounterLabels ["default"; "rollout-ref-deployment"; "Normal"; "RolloutUpdated"]
    !! "name" = Some "default" ∧
  RolloutEventCounter
    (@Eventf sampleObject sampleLogUtil sampleNotifications
       (@NewFakeEventRecorder sampleObject sampleNotifications) sampleRollout
       (mkEventOptions "" "RolloutUpdated") "updated" [] []).1
  = {[ ["default"; "rollout-ref-deployment"; "Normal"; "RolloutUpdated"] := 1%nat ]}.
Proof.
  assert (Hkind : @KindNamespaceName _ sampleLogUtil
                    (WithField (@WithObject _ sampleLogUtil sampleRollout) "event_reason"
                       "RolloutUpdated")
                  = ("Rollout", "default", "rollout-ref-deployment"))
    by (vm_compute; reflexivity).
  assert (Hreason : "RolloutUpdated" ≠ "") by discriminate.
  pose proof (@fake_counter_labels_by_position sampleObject sampleLogUtil sampleNotifications
                sampleRollout (mkEventOptions "" "RolloutUpdated") "updated" [] []
                "default" "rollout-ref-deployment" Hkind Hreason) as H.
  cbv zeta in H. destruct H as (Hcounter & _ & Hname & _).
  split; [exact Hname|exact Hcounter].
Defined.

Lemma sendNotifications_without_subscription_witness :
  @sendNotifications sampleObject sampleNotifications sampleConditions
     (adapterWith None) sampleRollout (mkEventOptions "Normal" "SomethingElse") []
  = (Returned None, []).
Proof.
  apply (@sendNotifications_without_subscription sampleObject sampleNotifications
           sampleConditions (adapterWith None) sampleRollout
           (mkEventOptions "Normal" "SomethingElse") [] ∅ eq_refl).
  vm_compute. reflexivity.
Defined.

Lemma sendEach_stops_at_first_failure_witness :
  @sendEach sampleObject sampleNotifications failingAPI sampleRollout []
     [mkDestination "slack" "my-channel"; mkDestination "email" "a@b.c"] []
  = (Some "connection refused",
     [mkLogLine ErrorLevel (mkEntry ∅) "notification error: %s" ["connection refused"]]).
Proof.
  exact (proj1 (@sendEach_stops_at_first_failure sampleObject sampleNotifications
                  failingAPI sampleRollout [] [] (mkDestination "slack" "my-channel")
                  [mkDestination "email" "a@b.c"] [] "connection refused" []
                  (Forall_nil_2 _) eq_refl)).
Defined.

Lemma sendNotifications_all_sent_witness :
  @sendNotifications sampleObject sampleNotifications sampleConditions
     (adapterWith (Some (Ok servingAPI))) sampleRollout
     (mkEventOptions "Normal" "RolloutCompleted") []
  = (Returned None, []).
Proof.
  assert (Htrig : @EventReasonToTrigger sampleConditions !! "RolloutCompleted" = Some "on-completed")
    by (vm_compute; reflexivity).
  assert (Hpanic : @templatesPanic sampleConditions (Triggers servingAPI) = false)
    by (vm_compute; reflexivity).
  apply (@sendNotifications_all_sent sampleObject sampleNotifications sampleConditions
           (adapterWith (Some (Ok servingAPI))) sampleRollout
           (mkEventOptions "Normal" "RolloutCompleted") [] ∅ "on-completed" servingAPI
           sampleRollout sampleRollout eq_refl Htrig eq_refl Hpanic eq_refl eq_refl).
  apply Forall_forall. intros d _. reflexivity.
Defined.

Lemma empty_built_in_trigger_panics_witness :
  @sendNotifications sampleObject sampleNotifications sampleConditions
     (adapterWith (Some (Ok emptyTriggerAPI))) sampleRollout
     (mkEventOptions "Normal" "RolloutCompleted") []
  = (Panicked, []).
Proof.
  assert (Hsub : @subscribedDestinations sampleObject sampleNotifications sampleConditions
                   sampleRollout (mkEventOptions "Normal" "RolloutCompleted") ≠ [])
    by (vm_compute; discriminate).
  assert (Hb : is_Some (@BuiltInTriggers sampleConditions !! "on-update"))
    by (eexists; vm_compute; reflexivity).
  assert (Hempty : Triggers emptyTriggerAPI !! "on-update" = Some [])
    by (vm_compute; reflexivity).
  exact (@empty_built_in_trigger_panics sampleObject sampleNotifications sampleConditions
           (adapterWith (Some (Ok emptyTriggerAPI))) sampleRollout
           (mkEventOptions "Normal" "RolloutCompleted") [] ∅ emptyTriggerAPI "on-update"
           eq_refl Hsub eq_refl Hb Hempty).
Defined.

Lemma unconfigured_trigger_sends_without_templates_witness :
  @sendNotifications sampleObject sampleNotifications sampleConditions
     sampleAdapter sampleRollout (mkEventOptions "Normal" "RolloutCompleted") []
  = (Returned (Some "connection refused"),
     [mkLogLine ErrorLevel (mkEntry ∅) "notification error: %s" ["connection refused"]]).
Proof.
  assert (Htrig : @EventReasonToTrigger sampleConditions !! "RolloutCompleted" = Some "on-completed")
    by (vm_compute; reflexivity).
  assert (Hdest : default [] (@GetDestinations _ sampleNotifications ∅ !! "on-completed") ≠ [])
    by (vm_compute; discriminate).
  assert (Hpanic : @templatesPanic sampleConditions (Triggers failingAPI) = false)
    by (vm_compute; reflexivity).
  assert (Hnone : Triggers failingAPI !! "on-completed" = None)
    by (vm_compute; reflexivity).
  rewrite (@unconfigured_trigger_sends_without_templates sampleObject sampleNotifications
             sampleConditions sampleAdapter sampleRollout
             (mkEventOptions "Normal" "RolloutCompleted") [] ∅ "on-completed" failingAPI
             sampleRollout sampleRollout eq_refl Htrig Hdest eq_refl Hpanic eq_refl eq_refl Hnone).
  vm_compute. reflexivity.
Defined.

Lemma factory_error_is_returned_first_witness :
  @sendNotifications sampleObject sampleNotifications sampleConditions
     (adapterWith (Some (Err "no configmap"))) sampleRollout
     (mkEventOptions "Normal" "RolloutCompleted") []
  = (Returned (Some "no configmap"), []).
Proof.
  assert (Hsub : @subscribedDestinations sampleObject sampleNotifications sampleConditions
                   sampleRollout (mkEventOptions "Normal" "RolloutCompleted") ≠ [])
    by (vm_compute; discriminate).
  exact (@factory_error_is_returned_first sampleObject sampleNotifications sampleConditions
           (adapterWith (Some (Err "no configmap"))) sampleRollout
           (mkEventOptions "Normal" "RolloutCompleted") [] ∅ "no configmap"
           eq_refl Hsub eq_refl).
Defined.
